(** * firebase-crashlytics-cli: token cache, config store, resolvers, request layer

    A shallow embedding of the decision logic of the CLI:
    - [auth/firebase-auth.ts]   the in-memory access-token cache,
    - [utils/config.ts]         the local/global JSON config store,
    - [api/firebase-project.ts] project and app resolution,
    - [class CrashlyticsClient] the HTTP status mapping of the client.

    An awaited function is run to completion on an explicit world (files,
    clock, scripted network, module variables); a rejected promise is a thrown
    [JsError].  The two requests [listApps] starts together with
    [Promise.all] are run as resumable tasks, interleaved at their awaits
    under a schedule. *)

From Stdlib Require Import ZArith String Ascii.
From stdpp Require Import gmap strings list pretty.

Local Open Scope string_scope.
Local Open Scope Z_scope.

(** ** JavaScript values that travel through the program *)

Module Js.

(** A JS number, as far as the program can tell numbers apart: the three
    non-finite values, and a finite double named by a decimal [m * 10^e] it is
    the rounding of, with [e <= 0] and as few digits as the literal allows
    (zero is [Finite 0 0], for both signs: [-0 === 0]). *)
Inductive jsnum :=
| NaN
| PosInf
| NegInf
| Finite (m e : Z).

(** The values [JSON.parse] can yield, and so the values a config file can
    hold behind the cast to [FccConfig]; an object is given by its own
    properties, in order. *)
#[warnings="-register-all"]
Inductive jsval :=
| VNull
| VBool (b : bool)
| VNum (n : jsnum)
| VStr (s : string)
| VArray (items : list jsval)
| VObject (fields : list (string * jsval)).

#[global] Instance jsnum_eq_dec : EqDecision jsnum.
Proof. solve_decision. Defined.

#[global] Instance jsval_eq_dec : EqDecision jsval.
Proof.
  refine (fix go (x y : jsval) {struct x} : Decision (x = y) :=
    match x, y with
    | VNull, VNull => left eq_refl
    | VBool a, VBool b => cast_if (decide (a = b))
    | VNum a, VNum b => cast_if (decide (a = b))
    | VStr a, VStr b => cast_if (decide (a = b))
    | VArray a, VArray b =>
        cast_if ((fix items (l k : list jsval) {struct l} : Decision (l = k) :=
                    match l, k with
                    | [], [] => left eq_refl
                    | v :: l', u :: k' => cast_if_and (go v u) (items l' k')
                    | _, _ => right _
                    end) a b)
    | VObject a, VObject b =>
        cast_if ((fix fields (l k : list (string * jsval)) {struct l} : Decision (l = k) :=
                    match l, k with
                    | [], [] => left eq_refl
                    | (n, v) :: l', (m, u) :: k' =>
                        cast_if_and3 (decide (n = m)) (go v u) (fields l' k')
                    | _, _ => right _
                    end) a b)
    | _, _ => right _
    end); clear go; try clear items; try clear fields; congruence.
Defined.

(** [Number.isNaN] *)
Definition isNaN (n : jsnum) : bool :=
  match n with NaN => true | _ => false end.

(** ToBoolean on strings and on values: what [if (x)] and [!x] test. *)
Definition truthy_str (s : string) : bool :=
  match s with EmptyString => false | _ => true end.

Definition truthy (v : jsval) : bool :=
  match v with
  | VNull => false
  | VBool b => b
  | VNum NaN => false
  | VNum (Finite m _) => negb (m =? 0)
  | VNum _ => true
  | VStr s => truthy_str s
  | VArray _ => true
  | VObject _ => true
  end.

(** *** [Number(string)]: ECMAScript StringToNumber *)

Definition is_digit (c : ascii) : bool :=
  let n := nat_of_ascii c in (48 <=? n)%nat && (n <=? 57)%nat.

Definition digit_of (base : Z) (c : ascii) : option Z :=
  let n := Z.of_nat (nat_of_ascii c) in
  let d := if (48 <=? n) && (n <=? 57) then Some (n - 48)
           else if (97 <=? n) && (n <=? 102) then Some (n - 87)
           else if (65 <=? n) && (n <=? 70) then Some (n - 55)
           else None in
  match d with
  | Some v => if v <? base then Some v else None
  | None => None
  end.

(** The value of a non-empty digit string in the given base. *)
Fixpoint digits_value (base : Z) (acc : Z) (l : list ascii) : option Z :=
  match l with
  | [] => Some acc
  | c :: l' =>
      match digit_of base c with
      | Some d => digits_value base (acc * base + d) l'
      | None => None
      end
  end.

Definition number_of_digits (base : Z) (l : list ascii) : option Z :=
  match l with [] => None | _ => digits_value base 0 l end.

(** Longest prefix of decimal digits, and the rest. *)
Fixpoint span_digits (l : list ascii) : list ascii * list ascii :=
  match l with
  | c :: l' =>
      if is_digit c then let '(ds, r) := span_digits l' in (c :: ds, r)
      else ([], l)
  | [] => ([], [])
  end.

(** Rounding a positive decimal [m * 10^e] to the nearest double, ties to
    even: from [2^1024 - 2^970] on the result is an infinity, up to [2^-1075]
    it is zero.  The first test of each function only spares the computation
    of a large power where the answer is plain from the size of [m] and [e]. *)
Definition overflow_bound : Z := 2 ^ 1024 - 2 ^ 970.

Definition overflows (m e : Z) : bool :=
  if 0 <=? e then
    if 310 <=? e then true else overflow_bound <=? m * 10 ^ e
  else
    if e + Z.log2 m + 1 <=? 308 then false
    else overflow_bound * 10 ^ (- e) <=? m.

Definition underflows (m e : Z) : bool :=
  if 0 <=? e then false
  else if e + Z.log2 m + 1 <=? -324 then true
  else m * 2 ^ 1075 <=? 10 ^ (- e).

(** [500 * 10^-1], [5 * 10^1] and [50 * 10^0] name the same number: an
    integer is written with exponent 0, a fraction with the least digits. *)
Fixpoint drop_zeros (fuel : nat) (m e : Z) : Z * Z :=
  match fuel with
  | O => (m, e)
  | S fuel' =>
      if (e <? 0) && (m mod 10 =? 0) then drop_zeros fuel' (m / 10) (e + 1)
      else (m, e)
  end.

Definition canonical (m e : Z) : Z * Z :=
  if 0 <=? e then (m * 10 ^ e, 0)
  else drop_zeros (Z.to_nat (Z.log2 m + 1)) m e.

Definition round_magnitude (m e : Z) : jsnum :=
  if m =? 0 then Finite 0 0
  else if overflows m e then PosInf
  else if underflows m e then Finite 0 0
  else let '(m', e') := canonical m e in Finite m' e'.

Definition negate (n : jsnum) : jsnum :=
  match n with
  | NaN => NaN
  | PosInf => NegInf
  | NegInf => PosInf
  | Finite m e => Finite (- m) e
  end.

Definition Infinity_lit : list ascii := list_ascii_of_string "Infinity".

(** ExponentPart: [e] or [E], an optional sign, digits; nothing may follow. *)
Definition exponent_part (l : list ascii) : option Z :=
  match l with
  | [] => Some 0
  | c :: l' =>
      if bool_decide (c = "e"%char) || bool_decide (c = "E"%char) then
        let '(neg, ds) :=
          match l' with
          | s :: l'' =>
              if bool_decide (s = "-"%char) then (true, l'')
              else if bool_decide (s = "+"%char) then (false, l'')
              else (false, l')
          | [] => (false, l')
          end in
        match number_of_digits 10 ds with
        | Some x => Some (if neg then - x else x)
        | None => None
        end
      else None
  end.

(** StrUnsignedDecimalLiteral *)
Definition unsigned_decimal (l : list ascii) : jsnum :=
  if bool_decide (l = Infinity_lit) then PosInf
  else
    let '(ip, r1) := span_digits l in
    let '(dot, fp, r2) :=
      match r1 with
      | c :: r =>
          if bool_decide (c = "."%char)
          then let '(fp, r2) := span_digits r in (true, fp, r2)
          else (false, [], r1)
      | [] => (false, [], r1)
      end in
    match ip, fp with
    | [], [] => NaN
    | _, _ =>
        match digits_value 10 0 (ip ++ fp), exponent_part r2 with
        | Some m, Some x => round_magnitude m (x - Z.of_nat (length fp))
        | _, _ => NaN
        end
    end.

(** StrNumericLiteral: a signed decimal literal, or an unsigned literal in
    base 16, 8 or 2.  The empty literal is [+0]. *)
Definition numeric_literal (l : list ascii) : jsnum :=
  let radix (b : Z) (ds : list ascii) :=
    match number_of_digits b ds with
    | Some m => round_magnitude m 0
    | None => NaN
    end in
  match l with
  | [] => Finite 0 0
  | "0"%char :: "x"%char :: ds | "0"%char :: "X"%char :: ds => radix 16 ds
  | "0"%char :: "o"%char :: ds | "0"%char :: "O"%char :: ds => radix 8 ds
  | "0"%char :: "b"%char :: ds | "0"%char :: "B"%char :: ds => radix 2 ds
  | "-"%char :: r => negate (unsigned_decimal r)
  | "+"%char :: r => unsigned_decimal r
  | _ => unsigned_decimal l
  end.

(** WhiteSpace and LineTerminator code points, as UTF-8 byte sequences. *)
Definition white_space : list (list nat) :=
  [ [9]; [10]; [11]; [12]; [13]; [32]; [194; 160]; [225; 154; 128];
    [226; 128; 128]; [226; 128; 129]; [226; 128; 130]; [226; 128; 131];
    [226; 128; 132]; [226; 128; 133]; [226; 128; 134]; [226; 128; 135];
    [226; 128; 136]; [226; 128; 137]; [226; 128; 138]; [226; 128; 168];
    [226; 128; 169]; [226; 128; 175]; [226; 129; 159]; [227; 128; 128];
    [239; 187; 191] ]%nat.

Fixpoint strip_prefix (p l : list nat) : option (list nat) :=
  match p, l with
  | [], _ => Some l
  | a :: p', b :: l' => if (a =? b)%nat then strip_prefix p' l' else None
  | _ :: _, [] => None
  end.

Fixpoint strip_one (ps : list (list nat)) (l : list nat) : option (list nat) :=
  match ps with
  | [] => None
  | p :: ps' =>
      match strip_prefix p l with
      | Some r => Some r
      | None => strip_one ps' l
      end
  end.

Fixpoint trim_start (fuel : nat) (ps : list (list nat)) (l : list nat) : list nat :=
  match fuel with
  | O => l
  | S fuel' =>
      match strip_one ps l with
      | Some r => trim_start fuel' ps r
      | None => l
      end
  end.

Definition trim (l : list nat) : list nat :=
  let l1 := trim_start (length l) white_space l in
  rev (trim_start (length l1) (map (@rev nat) white_space) (rev l1)).

Definition StringToNumber (s : string) : jsnum :=
  numeric_literal
    (map ascii_of_nat (trim (map nat_of_ascii (list_ascii_of_string s)))).

(** The number a decimal literal [m * 10^e] of a JSON text is read as: a
    literal beyond the range of doubles is an infinity, one below it zero. *)
Definition number_of_decimal (m e : Z) : jsnum :=
  if m <? 0 then negate (round_magnitude (- m) e) else round_magnitude m e.

(** *** Assignment to a property of an array *)

(** ToNumber, as the assignment to [length] applies it.  An array goes
    through its string: the empty array gives [""], an array of one element
    the string of that element, a longer one a string with a comma. *)
Fixpoint ToNumber (v : jsval) : jsnum :=
  match v with
  | VNull => Finite 0 0
  | VBool b => if b then Finite 1 0 else Finite 0 0
  | VNum n => n
  | VStr s => StringToNumber s
  | VArray [] => Finite 0 0
  | VArray [x] =>
      match x with
      | VNull => Finite 0 0
      | VBool _ => NaN
      | VObject _ => NaN
      | _ => ToNumber x
      end
  | VArray _ => NaN
  | VObject _ => NaN
  end.

(** Whether the double nearest to [m / d] (with [0 <= m], [0 < d]) is the
    integer [k], for [0 <= k < 2^32]: the distance is at most half the gap
    to the next double on that side (a tie goes to [k], whose significand is
    even). *)
Definition rounds_to (k m d : Z) : bool :=
  if k =? 0 then m * 2 ^ 1075 <=? d
  else
    let p := Z.log2 k in
    if k * d <=? m then (m - k * d) * 2 ^ (53 - p) <=? d
    else if k =? 2 ^ p then (k * d - m) * 2 ^ (54 - p) <=? d
    else (k * d - m) * 2 ^ (53 - p) <=? d.

(** The array length a number is, if it is one: [ToUint32(n) = n]. *)
Definition array_length (n : jsnum) : option nat :=
  match n with
  | Finite m e =>
      if 0 <=? e then
        let k := m * 10 ^ e in
        if (0 <=? k) && (k <? 2 ^ 32) then Some (Z.to_nat k) else None
      else
        let d := 10 ^ (- e) in
        let k := (2 * Z.abs m + d) / (2 * d) in
        if (k <? 2 ^ 32) && rounds_to k (Z.abs m) d && ((0 <=? m) || (k =? 0))
        then Some (Z.to_nat k) else None
  | _ => None
  end.

(** The array index a property key is, if it is one: a decimal numeral
    without leading zero, below [2^32 - 1]. *)
Definition array_index (key : string) : option nat :=
  match list_ascii_of_string key with
  | [] => None
  | "0"%char :: _ :: _ => None
  | l =>
      match number_of_digits 10 l with
      | Some k => if k <? 2 ^ 32 - 1 then Some (Z.to_nat k) else None
      | None => None
      end
  end.

End Js.

Import Js.

(** ** The world the CLI runs in *)

(** What [JSON.parse] makes of a text: it throws, or yields [null], or yields a
    value read at the interface the code casts it to. *)
Inductive parsed (A : Type) :=
| Malformed
| JsonNull
| Json (a : A).
Arguments Malformed {A}.
Arguments JsonNull {A}.
Arguments Json {A} a.

(** What [readFile] finds at a path: [ENOENT], another error (with the
    system's message), or a text. *)
Inductive file (A : Type) :=
| Absent
| Unreadable (msg : string)
| Text (p : parsed A).
Arguments Absent {A}.
Arguments Unreadable {A} msg.
Arguments Text {A} p.

(** A value in a JSON text; a number is the decimal literal [m * 10^e] as it
    is written. *)
#[warnings="-register-all"]
Inductive json :=
| JNull
| JBool (b : bool)
| JNumber (m e : Z)
| JString (s : string)
| JArray (items : list json)
| JObject (fields : list (string * json)).

(** [JSON.parse]: a number literal is rounded to a double. *)
Fixpoint of_json (j : json) : jsval :=
  match j with
  | JNull => VNull
  | JBool b => VBool b
  | JNumber m e => VNum (number_of_decimal m e)
  | JString s => VStr s
  | JArray items => VArray (map of_json items)
  | JObject fields => VObject (map (fun kv => (fst kv, of_json (snd kv))) fields)
  end.

(** [JSON.stringify]: a number that is not finite is written as [null], a
    finite one by the decimal that names it. *)
Fixpoint to_json (v : jsval) : json :=
  match v with
  | VNull => JNull
  | VBool b => JBool b
  | VNum (Finite m e) =>
      match number_of_decimal m e with
      | Finite m' e' => JNumber m' e'
      | _ => JNull
      end
  | VNum _ => JNull
  | VStr s => JString s
  | VArray items => JArray (map to_json items)
  | VObject fields => JObject (map (fun kv => (fst kv, to_json (snd kv))) fields)
  end.

(** *** JSON: what [JSON.parse (JSON.stringify v)] gives back *)

Definition json_roundtrip (v : jsval) : jsval := of_json (to_json v).

(** The values a JSON text can hold: those a round trip leaves as they are. *)
Definition storable (v : jsval) : bool :=
  bool_decide (json_roundtrip v = v).


(** What a config file holds when its text parses to something other than
    [null]: an object, given by its properties (the record the interface
    [FccConfig] announces), or an array, or a primitive. *)
Inductive ConfigJson :=
| RecordJson (c : gmap string json)
| ArrayJson (items : list json)
| BooleanJson (b : bool)
| NumberJson (m e : Z)
| StringJson (s : string).

(** [interface FirebaseTokens] of firebase-tools.json *)
Record Tokens := { refresh_token : option string }.
Record FirebaseTokens := { tokens : option Tokens }.

(** [interface FirebaseRc] of .firebaserc *)
Record RcProjects := { rc_default : option string }.
Record FirebaseRc := { projects : option RcProjects }.

(** [interface AndroidApp], [interface IosApp] *)
Record AppJson := {
  app_appId : string;
  app_displayName : option string;
  app_packageName : option string;
  app_bundleId : option string }.

(** The fields the program reads from a response body, each possibly
    [undefined]: [TokenResponse], [TokenErrorResponse],
    [FirebaseProjectResponse], [ListAndroidAppsResponse], [ListIosAppsResponse]. *)
Record Payload := {
  access_token : option string;
  expires_in : option Z;
  error : option string;
  error_description : option string;
  p_projectId : option string;
  p_projectNumber : option string;
  p_displayName : option string;
  p_name : option string;
  apps : option (list AppJson) }.

(** A request body: none, a [URLSearchParams] form, or a JSON text. *)
Inductive RequestBody :=
| NoBody
| Form (fields : list (string * string))
| JsonText (s : string).

Record Request := {
  r_method : string;
  r_url : string;
  r_authorization : option string;
  r_body : RequestBody }.

Record Response := {
  status : Z;
  statusText : string;
  text : string;
  body : parsed Payload }.

(** [response.ok] *)
Definition ok (r : Response) : bool := (200 <=? status r) && (status r <=? 299).

(** [fetch] rejects, or resolves with a response. *)
Inductive reply :=
| NetworkFailure (msg : string)
| Respond (r : Response).

Inductive Event :=
| EvReadFile (path : string)
| EvWriteFile (path : string)
| EvMkdir (path : string)
| EvFetch (req : Request).

Definition is_fetch (ev : Event) : bool :=
  match ev with EvFetch _ => true | _ => false end.

Record World := {
  homedir : string;
  cwd : string;
  firebase_tools : file FirebaseTokens;
  firebaserc : file FirebaseRc;
  local_config : file ConfigJson;
  global_config : file ConfigJson;
  (** why [writeFile] or [mkdir] would fail at a path, if it would *)
  write_error : string -> option string;
  mkdir_error : string -> option string;
  (** [Date.now()], and how long the k-th I/O operation takes (ms) *)
  clock : Z;
  elapse : nat -> nat;
  (** the reply to a request, given how many were sent before it *)
  net : nat -> Request -> reply;
  trace : list Event;
  (** module variables of auth/firebase-auth.ts; [None] is [null], resp. [NaN] *)
  cachedAccessToken : option string;
  tokenExpiresAt : option Z }.

Definition fetches (w : World) : list Event := filter (fun ev => is_fetch ev = true) (trace w).

(** ** Promises run to completion: a state and exception monad *)

Record JsError := {
  name : string;
  message : string;
  statusCode : option Z;
  errStatusText : option string }.

(** [new Error(msg)] *)
Definition Error (msg : string) : JsError :=
  {| name := "Error"; message := msg; statusCode := None; errStatusText := None |}.

(** [new CrashlyticsApiError(msg, statusCode, statusText)] *)
Definition CrashlyticsApiError (msg : string) (code : Z) (statusText : string) : JsError :=
  {| name := "CrashlyticsApiError"; message := msg; statusCode := Some code;
     errStatusText := Some statusText |}.

(** Reading a property of [null]. *)
Definition TypeError (prop : string) : JsError :=
  {| name := "TypeError";
     message := "Cannot read properties of null (reading '" ++ prop ++ "')";
     statusCode := None; errStatusText := None |}.

Inductive outcome (A : Type) :=
| Return (a : A)
| Throw (e : JsError).
Arguments Return {A} a.
Arguments Throw {A} e.

Definition M (A : Type) : Type := World -> outcome A * World.

Definition ret {A} (a : A) : M A := fun w => (Return a, w).
Definition throw {A} (e : JsError) : M A := fun w => (Throw e, w).
Definition bind {A B} (m : M A) (k : A -> M B) : M B :=
  fun w => match m w with
           | (Return a, w') => k a w'
           | (Throw e, w') => (Throw e, w')
           end.
(** [try { m } catch (err) { h err }] *)
Definition try_catch {A} (m : M A) (h : JsError -> M A) : M A :=
  fun w => match m w with
           | (Return a, w') => (Return a, w')
           | (Throw e, w') => h e w'
           end.

Notation "'do' x <- m ; k" := (bind m (fun x => k))
  (at level 10, x name, m at level 100, k at level 200, only parsing).
Notation "'run' m ; k" := (bind m (fun _ => k))
  (at level 10, m at level 100, k at level 200, only parsing).

(** An awaited I/O operation: it takes its time and is logged. *)
Definition io (ev : Event) : M unit := fun w =>
  (Return tt,
   {| homedir := homedir w; cwd := cwd w;
      firebase_tools := firebase_tools w; firebaserc := firebaserc w;
      local_config := local_config w; global_config := global_config w;
      write_error := write_error w; mkdir_error := mkdir_error w;
      clock := clock w + Z.of_nat (elapse w (length (trace w)));
      elapse := elapse w; net := net w;
      trace := trace w ++ [ev];
      cachedAccessToken := cachedAccessToken w;
      tokenExpiresAt := tokenExpiresAt w |}).

(** [Date.now()] *)
Definition Date_now : M Z := fun w => (Return (clock w), w).

(** [fetch(url, options)] *)
Definition fetch (req : Request) : M reply := fun w =>
  let r := net w (length (fetches w)) req in
  match io (EvFetch req) w with
  | (_, w') => (Return r, w')
  end.

(** [path.join] of directory and file names *)
Definition join (segments : list string) : string :=
  String.concat "/" segments.

(** What a [readFile] of a JSON file comes to: the [catch] branches of the
    readers tell [ENOENT] from other errors, then [JSON.parse] runs. *)
Definition readFile {A} (path : string) (slot : World -> file A) : M (file A) :=
  run io (EvReadFile path);
  fun w => (Return (slot w), w).

(** Assignments to the two module variables of the token cache. *)
Definition set_cachedAccessToken (t : option string) : M unit := fun w =>
  (Return tt,
   {| homedir := homedir w; cwd := cwd w;
      firebase_tools := firebase_tools w; firebaserc := firebaserc w;
      local_config := local_config w; global_config := global_config w;
      write_error := write_error w; mkdir_error := mkdir_error w;
      clock := clock w; elapse := elapse w; net := net w; trace := trace w;
      cachedAccessToken := t;
      tokenExpiresAt := tokenExpiresAt w |}).

Definition set_tokenExpiresAt (t : option Z) : M unit := fun w =>
  (Return tt,
   {| homedir := homedir w; cwd := cwd w;
      firebase_tools := firebase_tools w; firebaserc := firebaserc w;
      local_config := local_config w; global_config := global_config w;
      write_error := write_error w; mkdir_error := mkdir_error w;
      clock := clock w; elapse := elapse w; net := net w; trace := trace w;
      cachedAccessToken := cachedAccessToken w;
      tokenExpiresAt := t |}).

(** A value interpolated in a template literal; [None] is [undefined]. *)
Definition ToString (v : option string) : string :=
  match v with Some s => s | None => "undefined" end.

(** ** Promises that run side by side *)

(** An awaited I/O operation in two steps: it is logged when it starts, and
    it takes its time until it completes.  [io] is the one after the other. *)
Definition log (ev : Event) (w : World) : World :=
  {| homedir := homedir w; cwd := cwd w;
     firebase_tools := firebase_tools w; firebaserc := firebaserc w;
     local_config := local_config w; global_config := global_config w;
     write_error := write_error w; mkdir_error := mkdir_error w;
     clock := clock w; elapse := elapse w; net := net w;
     trace := trace w ++ [ev];
     cachedAccessToken := cachedAccessToken w;
     tokenExpiresAt := tokenExpiresAt w |}.

Definition tick (ms : nat) (w : World) : World :=
  {| homedir := homedir w; cwd := cwd w;
     firebase_tools := firebase_tools w; firebaserc := firebaserc w;
     local_config := local_config w; global_config := global_config w;
     write_error := write_error w; mkdir_error := mkdir_error w;
     clock := clock w + Z.of_nat ms; elapse := elapse w; net := net w;
     trace := trace w;
     cachedAccessToken := cachedAccessToken w;
     tokenExpiresAt := tokenExpiresAt w |}.

(** An async function of the token cache or of the Management API, as what is
    left of it to run: it has settled, or it goes on synchronously (reading
    the world, assigning a module variable), or it waits at an [await] for
    the sibling tool's file, for a response, or for the body of a response. *)
Inductive Task (A : Type) :=
| Settled (r : outcome A)
| Look (k : World -> Task A)
| SetCachedAccessToken (t : option string) (rest : Task A)
| SetTokenExpiresAt (t : option Z) (rest : Task A)
| AwaitReadFile (path : string) (k : file FirebaseTokens -> Task A)
| AwaitFetch (req : Request) (k : reply -> Task A)
| AwaitBody (rest : Task A).
Arguments Settled {A} r.
Arguments Look {A} k.
Arguments SetCachedAccessToken {A} t rest.
Arguments SetTokenExpiresAt {A} t rest.
Arguments AwaitReadFile {A} path k.
Arguments AwaitFetch {A} req k.
Arguments AwaitBody {A} rest.

(** [const a = await t; ... f a] *)
Fixpoint and_then {A B} (t : Task A) (f : A -> Task B) : Task B :=
  match t with
  | Settled (Return a) => f a
  | Settled (Throw e) => Settled (Throw e)
  | Look k => Look (fun w => and_then (k w) f)
  | SetCachedAccessToken c rest => SetCachedAccessToken c (and_then rest f)
  | SetTokenExpiresAt e rest => SetTokenExpiresAt e (and_then rest f)
  | AwaitReadFile path k => AwaitReadFile path (fun raw => and_then (k raw) f)
  | AwaitFetch req k => AwaitFetch req (fun r => and_then (k r) f)
  | AwaitBody rest => AwaitBody (and_then rest f)
  end.

(** A task run alone, every await to its completion: the awaited form. *)
Fixpoint run_task {A} (t : Task A) (w : World) : outcome A * World :=
  match t with
  | Settled r => (r, w)
  | Look k => run_task (k w) w
  | SetCachedAccessToken c rest => run_task rest (snd (set_cachedAccessToken c w))
  | SetTokenExpiresAt e rest => run_task rest (snd (set_tokenExpiresAt e w))
  | AwaitReadFile path k =>
      let w' := snd (io (EvReadFile path) w) in
      run_task (k (firebase_tools w')) w'
  | AwaitFetch req k =>
      let r := net w (length (fetches w)) req in
      run_task (k r) (snd (io (EvFetch req) w))
  | AwaitBody rest => run_task rest w
  end.

(** A task between two turns of the event loop: settled, or waiting for an
    operation that is under way, with the time it takes and what the task
    does once it completes. *)
Inductive Pending (A : Type) :=
| Finished (r : outcome A)
| Waiting (took : nat) (rest : Task A).
Arguments Finished {A} r.
Arguments Waiting {A} took rest.

(** A task runs until its next [await]; the operation awaited is started
    there: a request is answered by its place among the requests sent. *)
Fixpoint resume {A} (t : Task A) (w : World) : Pending A * World :=
  match t with
  | Settled r => (Finished r, w)
  | Look k => resume (k w) w
  | SetCachedAccessToken c rest => resume rest (snd (set_cachedAccessToken c w))
  | SetTokenExpiresAt e rest => resume rest (snd (set_tokenExpiresAt e w))
  | AwaitReadFile path k =>
      (Waiting (elapse w (length (trace w))) (k (firebase_tools w)),
       log (EvReadFile path) w)
  | AwaitFetch req k =>
      (Waiting (elapse w (length (trace w))) (k (net w (length (fetches w)) req)),
       log (EvFetch req) w)
  | AwaitBody rest => (Waiting 0 rest, w)
  end.

(** The operation a task waits for completes, and the task is run alone from
    there to its end. *)
Definition settle {A} (p : Pending A) (w : World) : outcome A * World :=
  match p with
  | Finished r => (r, w)
  | Waiting took rest => run_task rest (tick took w)
  end.

(** [await Promise.all([a, b])] for two tasks that have been started.  Each
    turn completes the operation one of them waits for and runs that task to
    its next [await]; the schedule says whose turn it is ([true]: the first)
    while both wait, and when it is used up the first task is completed, then
    the second.  The first rejection rejects the whole, with the other task
    left where it was. *)
Fixpoint Promise_all {A B} (schedule : list bool) (a : Pending A) (b : Pending B)
    (w : World) : outcome (A * B) * World :=
  match a, b with
  | Finished (Throw e), _ => (Throw e, w)
  | _, Finished (Throw e) => (Throw e, w)
  | Finished (Return x), Finished (Return y) => (Return (x, y), w)
  | Waiting took rest, Finished (Return y) =>
      match schedule with
      | _ :: schedule' =>
          let '(a', w') := resume rest (tick took w) in
          Promise_all schedule' a' b w'
      | [] =>
          match settle a w with
          | (Return x, w') => (Return (x, y), w')
          | (Throw e, w') => (Throw e, w')
          end
      end
  | Finished (Return x), Waiting took rest =>
      match schedule with
      | _ :: schedule' =>
          let '(b', w') := resume rest (tick took w) in
          Promise_all schedule' a b' w'
      | [] =>
          match settle b w with
          | (Return y, w') => (Return (x, y), w')
          | (Throw e, w') => (Throw e, w')
          end
      end
  | Waiting took_a rest_a, Waiting took_b rest_b =>
      match schedule with
      | true :: schedule' =>
          let '(a', w') := resume rest_a (tick took_a w) in
          Promise_all schedule' a' b w'
      | false :: schedule' =>
          let '(b', w') := resume rest_b (tick took_b w) in
          Promise_all schedule' a b' w'
      | [] =>
          match settle a w with
          | (Return x, w') =>
              match settle b w' with
              | (Return y, w'') => (Return (x, y), w'')
              | (Throw e, w'') => (Throw e, w'')
              end
          | (Throw e, w') => (Throw e, w')
          end
      end
  end.

(** ** auth/firebase-auth.ts *)

Module Auth.

Definition FIREBASE_CLIENT_ID : string :=
  "563584335869-fgrhgmd47bqnekij5i8b5pr03ho849e6.apps.googleusercontent.com".
Definition FIREBASE_CLIENT_SECRET : string := "j9iVZfS8kkCEFUPaAeJV0sAi".
Definition TOKEN_ENDPOINT : string := "https://oauth2.googleapis.com/token".

Definition getFirebaseConfigPath : M string := fun w =>
  (Return (join [homedir w; ".config"; "configstore"; "firebase-tools.json"]), w).

Definition readRefreshToken : M string :=
  do configPath <- getFirebaseConfigPath;
  do raw <- readFile configPath firebase_tools;
  match raw with
  | Absent =>
      throw (Error "Firebase CLI config not found. Run `firebase login` first to authenticate.")
  | Unreadable msg =>
      throw (Error ("Failed to read Firebase CLI config at " ++ configPath ++ ": " ++ msg))
  | Text Malformed =>
      throw (Error ("Failed to parse Firebase CLI config at " ++ configPath ++
                    ". The file may be corrupted. Try running `firebase login` again."))
  | Text config =>
      (* config?.tokens?.refresh_token *)
      let refreshToken :=
        match config with
        | Json c => match tokens c with Some t => refresh_token t | None => None end
        | _ => None
        end in
      match refreshToken with
      | Some t =>
          if truthy_str t then ret t
          else throw (Error "No refresh token found in Firebase CLI config. Run `firebase login` first to authenticate.")
      | None =>
          throw (Error "No refresh token found in Firebase CLI config. Run `firebase login` first to authenticate.")
      end
  end.

(** The POST that exchanges a refresh token. *)
Definition token_request (refreshToken : string) : Request :=
  let form := Form [("grant_type", "refresh_token");
                    ("refresh_token", refreshToken);
                    ("client_id", FIREBASE_CLIENT_ID);
                    ("client_secret", FIREBASE_CLIENT_SECRET)] in
  {| r_method := "POST"; r_url := TOKEN_ENDPOINT;
     r_authorization := None; r_body := form |}.

Definition refreshAccessToken (refreshToken : string) : M string :=
  do r <- fetch (token_request refreshToken);
  match r with
  | NetworkFailure msg =>
      throw (Error ("Network error while refreshing access token: " ++ msg))
  | Respond response =>
      if negb (ok response) then
        let generic := "Token refresh failed with status " ++ pretty (status response) in
        let errorMessage :=
          match body response with
          | Json errorBody =>
              if bool_decide (error errorBody = Some "invalid_grant") then
                "Firebase token is invalid or expired. Run `firebase login` again to re-authenticate."
              else
                "Token refresh failed: " ++ ToString (error errorBody) ++
                match error_description errorBody with
                | Some d => if truthy_str d then " â€” " ++ d else ""
                | None => ""
                end
          | _ => generic (* could not parse the error body *)
          end in
        throw (Error errorMessage)
      else
        match body response with
        | Malformed =>
            throw (Error "Failed to parse token response from Google OAuth2 endpoint.")
        | JsonNull => throw (TypeError "access_token")
        | Json tokenData =>
            match access_token tokenData with
            | Some t =>
                if truthy_str t then
                  (* cache the token with a safety margin of 60 seconds *)
                  run set_cachedAccessToken (Some t);
                  do now <- Date_now;
                  run set_tokenExpiresAt
                        (match expires_in tokenData with
                         | Some ttl => Some (now + (ttl - 60) * 1000)
                         | None => None
                         end);
                  ret t
                else throw (Error "No access token returned from Google OAuth2 endpoint. Try running `firebase login` again.")
            | None =>
                throw (Error "No access token returned from Google OAuth2 endpoint. Try running `firebase login` again.")
            end
        end
  end.

(** [Date.now() < tokenExpiresAt]; a comparison with [NaN] is false. *)
Definition before (now : Z) (expiresAt : option Z) : bool :=
  match expiresAt with Some t => now <? t | None => false end.

Definition getAccessToken : M string :=
  fun w =>
    match cachedAccessToken w with
    | Some cached =>
        if truthy_str cached && before (clock w) (tokenExpiresAt w)
        then (Return cached, w)
        else (do refreshToken <- readRefreshToken;
              refreshAccessToken refreshToken) w
    | None =>
        (do refreshToken <- readRefreshToken;
         refreshAccessToken refreshToken) w
    end.

(** *** The same three functions as tasks, for callers that do not await
    them at once *)

Definition readRefreshToken_task : Task string :=
  Look (fun w =>
  let configPath := join [homedir w; ".config"; "configstore"; "firebase-tools.json"] in
  AwaitReadFile configPath (fun raw =>
  match raw with
  | Absent =>
      Settled (Throw (Error "Firebase CLI config not found. Run `firebase login` first to authenticate."))
  | Unreadable msg =>
      Settled (Throw (Error ("Failed to read Firebase CLI config at " ++ configPath ++ ": " ++ msg)))
  | Text Malformed =>
      Settled (Throw (Error ("Failed to parse Firebase CLI config at " ++ configPath ++
                             ". The file may be corrupted. Try running `firebase login` again.")))
  | Text config =>
      let refreshToken :=
        match config with
        | Json c => match tokens c with Some t => refresh_token t | None => None end
        | _ => None
        end in
      match refreshToken with
      | Some t =>
          if truthy_str t then Settled (Return t)
          else Settled (Throw (Error "No refresh token found in Firebase CLI config. Run `firebase login` first to authenticate."))
      | None =>
          Settled (Throw (Error "No refresh token found in Firebase CLI config. Run `firebase login` first to authenticate."))
      end
  end)).

Definition refreshAccessToken_task (refreshToken : string) : Task string :=
  AwaitFetch (token_request refreshToken) (fun r =>
  match r with
  | NetworkFailure msg =>
      Settled (Throw (Error ("Network error while refreshing access token: " ++ msg)))
  | Respond response =>
      if negb (ok response) then
        let generic := "Token refresh failed with status " ++ pretty (status response) in
        (* await response.json() *)
        AwaitBody
          (let errorMessage :=
             match body response with
             | Json errorBody =>
                 if bool_decide (error errorBody = Some "invalid_grant") then
                   "Firebase token is invalid or expired. Run `firebase login` again to re-authenticate."
                 else
                   "Token refresh failed: " ++ ToString (error errorBody) ++
                   match error_description errorBody with
                   | Some d => if truthy_str d then " â€” " ++ d else ""
                   | None => ""
                   end
             | _ => generic
             end in
           Settled (Throw (Error errorMessage)))
      else
        (* await response.json() *)
        AwaitBody
          (match body response with
           | Malformed =>
               Settled (Throw (Error "Failed to parse token response from Google OAuth2 endpoint."))
           | JsonNull => Settled (Throw (TypeError "access_token"))
           | Json tokenData =>
               match access_token tokenData with
               | Some t =>
                   if truthy_str t then
                     SetCachedAccessToken (Some t)
                       (Look (fun w =>
                        SetTokenExpiresAt
                          (match expires_in tokenData with
                           | Some ttl => Some (clock w + (ttl - 60) * 1000)
                           | None => None
                           end)
                          (Settled (Return t))))
                   else Settled (Throw (Error "No access token returned from Google OAuth2 endpoint. Try running `firebase login` again."))
               | None =>
                   Settled (Throw (Error "No access token returned from Google OAuth2 endpoint. Try running `firebase login` again."))
               end
           end)
  end).

Definition getAccessToken_task : Task string :=
  Look (fun w =>
  match cachedAccessToken w with
  | Some cached =>
      if truthy_str cached && before (clock w) (tokenExpiresAt w)
      then Settled (Return cached)
      else and_then readRefreshToken_task refreshAccessToken_task
  | None => and_then readRefreshToken_task refreshAccessToken_task
  end).

End Auth.

(** ** utils/config.ts *)

Module Config.

(** The double-quote character of the messages. *)
Definition dq : string := String (ascii_of_nat 34) EmptyString.

(** Known config keys with their expected types. *)
Definition KNOWN_CONFIG_KEYS : list (string * string) :=
  [ ("project", "string"); ("projectId", "string"); ("projectNumber", "string");
    ("app", "string"); ("appId", "string"); ("defaultType", "string");
    ("defaultLimit", "number") ].

(** [KNOWN_CONFIG_KEYS[key]], as far as it is compared with a type name. *)
Definition expected_type (key : string) : option string :=
  snd <$> List.find (fun kv => bool_decide (fst kv = key)) KNOWN_CONFIG_KEYS.

Definition known_key (key : string) : bool :=
  bool_decide (key ∈ (fst <$> KNOWN_CONFIG_KEYS)).

Definition getLocalConfigPath : M string := fun w =>
  (Return (join [cwd w; ".fcc.json"]), w).

Definition getGlobalConfigPath : M string := fun w =>
  (Return (join [homedir w; ".config"; "fcc"; "config.json"]), w).

(** A config record at run time: the properties of an [FccConfig]. *)
Abbreviation FccConfig := (gmap string jsval).

(** What a reader returns behind its cast to [FccConfig], when that is not
    [null]: an object, as the record of its properties; an array; or a
    primitive (a boolean, a number or a string). *)
Inductive ConfigValue :=
| Record (c : FccConfig)
| Array (items : list jsval)
| Primitive (p : jsval).

(** [JSON.parse(raw)] *)
Definition parse_config (text : ConfigJson) : ConfigValue :=
  match text with
  | RecordJson c => Record (of_json <$> c)
  | ArrayJson items => Array (of_json <$> items)
  | BooleanJson b => Primitive (VBool b)
  | NumberJson m e => Primitive (VNum (number_of_decimal m e))
  | StringJson s => Primitive (VStr s)
  end.

(** The common body of [readConfig] and [readGlobalConfig]; [None] is [null]. *)
Definition read_config_file (scope : string) (configPath : string)
    (slot : World -> file ConfigJson) : M (option ConfigValue) :=
  do raw <- readFile configPath slot;
  match raw with
  | Absent => ret None
  | Unreadable msg =>
      throw (Error ("Failed to read " ++ scope ++ " config at " ++ configPath ++ ": " ++ msg))
  | Text Malformed =>
      throw (Error ("Failed to parse " ++ scope ++ " config at " ++ configPath ++
                    ". The file may be corrupted."))
  | Text JsonNull => ret None
  | Text (Json text) => ret (Some (parse_config text))
  end.

Definition readConfig : M (option ConfigValue) :=
  do configPath <- getLocalConfigPath;
  read_config_file "local" configPath local_config.

Definition readGlobalConfig : M (option ConfigValue) :=
  do configPath <- getGlobalConfigPath;
  read_config_file "global" configPath global_config.

(** [existing[key] = value] on an object that came out of [JSON.parse]: the
    inherited setter of [__proto__] swallows the value, unless the object has
    a property of that name itself. *)
Definition set_property (key : string) (value : jsval) (existing : FccConfig) : FccConfig :=
  if bool_decide (key = "__proto__") && bool_decide (existing !! key = None)
  then existing
  else <[key := value]> existing.

(** [new RangeError("Invalid array length")] of the engine. *)
Definition RangeError (msg : string) : JsError :=
  {| name := "RangeError"; message := msg; statusCode := None; errStatusText := None |}.

(** [existing[key] = value] on an array, as far as [JSON.stringify] shows it:
    [length] cuts the array or extends it with holes, an index sets an item
    (with holes up to it), any other key leaves the items alone.  A hole is
    written as [null]. *)
Definition set_item (key : string) (value : jsval) (items : list jsval)
    : outcome (list jsval) :=
  if bool_decide (key = "length") then
    match array_length (ToNumber value) with
    | Some n => Return (resize n VNull items)
    | None => Throw (RangeError "Invalid array length")
    end
  else
    match array_index key with
    | Some i =>
        if bool_decide (i < length items)%nat then Return (<[i := value]> items)
        else Return (items ++ replicate (i - length items) VNull ++ [value])%list
    | None => Return items
    end.

(** The [TypeError] of an assignment to a property of a primitive, in a
    module (strict code); for a number the engine goes on to quote it. *)
Definition primitive_TypeError (key : string) (p : jsval) : JsError :=
  {| name := "TypeError";
     message :=
       match p with
       | VStr s =>
           if bool_decide (key = "length") ||
              match array_index key with
              | Some i => bool_decide (i < String.length s)%nat
              | None => false
              end
           then "Cannot assign to read only property '" ++ key ++ "' of string '" ++ s ++ "'"
           else "Cannot create property '" ++ key ++ "' on string '" ++ s ++ "'"
       | VBool true => "Cannot create property '" ++ key ++ "' on boolean 'true'"
       | VBool false => "Cannot create property '" ++ key ++ "' on boolean 'false'"
       | _ => "Cannot create property '" ++ key ++ "' on number"
       end;
     statusCode := None; errStatusText := None |}.

(** [existing[key] = value] on whatever the reader returned. *)
Definition assign (key : string) (value : jsval) (existing : ConfigValue)
    : outcome ConfigValue :=
  match existing with
  | Record c => Return (Record (set_property key value c))
  | Array items =>
      match set_item key value items with
      | Return items' => Return (Array items')
      | Throw e => Throw e
      end
  | Primitive p =>
      if bool_decide (key = "__proto__") then Return existing
      else Throw (primitive_TypeError key p)
  end.

(** [JSON.stringify(existing, null, 2)], as what a later [JSON.parse] makes
    of the text. *)
Definition stringify (existing : ConfigValue) : parsed ConfigJson :=
  match existing with
  | Record c => Json (RecordJson (to_json <$> c))
  | Array items => Json (ArrayJson (to_json <$> items))
  | Primitive p =>
      match to_json p with
      | JNull => JsonNull
      | JBool b => Json (BooleanJson b)
      | JNumber m e => Json (NumberJson m e)
      | JString s => Json (StringJson s)
      | JArray items => Json (ArrayJson items)
      | JObject fields => Json (RecordJson (list_to_map fields))
      end
  end.

Definition set_local_config (f : file ConfigJson) : M unit := fun w =>
  (Return tt,
   {| homedir := homedir w; cwd := cwd w;
      firebase_tools := firebase_tools w; firebaserc := firebaserc w;
      local_config := f; global_config := global_config w;
      write_error := write_error w; mkdir_error := mkdir_error w;
      clock := clock w; elapse := elapse w; net := net w; trace := trace w;
      cachedAccessToken := cachedAccessToken w;
      tokenExpiresAt := tokenExpiresAt w |}).

Definition set_global_config (f : file ConfigJson) : M unit := fun w =>
  (Return tt,
   {| homedir := homedir w; cwd := cwd w;
      firebase_tools := firebase_tools w; firebaserc := firebaserc w;
      local_config := local_config w; global_config := f;
      write_error := write_error w; mkdir_error := mkdir_error w;
      clock := clock w; elapse := elapse w; net := net w; trace := trace w;
      cachedAccessToken := cachedAccessToken w;
      tokenExpiresAt := tokenExpiresAt w |}).

(** [writeFile(configPath, text)]: it fails with the system's error and leaves
    the file as it was, or replaces the whole content. *)
Definition writeFile (configPath : string) (store : file ConfigJson -> M unit)
    (content : parsed ConfigJson) : M unit :=
  run io (EvWriteFile configPath);
  do failure <- (fun w => (Return (write_error w configPath), w));
  match failure with
  | Some msg => throw (Error msg)
  | None => store (Text content)
  end.

(** [mkdir(configDir, { recursive: true })] *)
Definition mkdir (configDir : string) : M unit :=
  run io (EvMkdir configDir);
  do failure <- (fun w => (Return (mkdir_error w configDir), w));
  match failure with
  | Some msg => throw (Error msg)
  | None => ret tt
  end.

Definition writeConfig (key : string) (value : jsval) : M unit :=
  do configPath <- getLocalConfigPath;
  (* read existing config or start fresh *)
  do existing <- readConfig;
  match assign key value (default (Record ∅) existing) with
  | Return existing => writeFile configPath set_local_config (stringify existing)
  | Throw e => throw e
  end.

Definition writeGlobalConfig (key : string) (value : jsval) : M unit :=
  do configPath <- getGlobalConfigPath;
  do configDir <- (fun w => (Return (join [homedir w; ".config"; "fcc"]), w));
  (* ensure the directory exists *)
  run mkdir configDir;
  do existing <- readGlobalConfig;
  match assign key value (default (Record ∅) existing) with
  | Return existing => writeFile configPath set_global_config (stringify existing)
  | Throw e => throw e
  end.

(** The own enumerable properties of a value, which [{ ...value }] copies:
    those of a record, the items of an array and the characters of a string
    under their index, none of a number or a boolean. *)
Definition indexed {A} (f : A -> jsval) (l : list A) : FccConfig :=
  list_to_map (imap (fun i x => (pretty i, f x)) l).

Definition own_properties (v : ConfigValue) : FccConfig :=
  match v with
  | Record c => c
  | Array items => indexed id items
  | Primitive (VStr s) =>
      indexed (fun a => VStr (String a EmptyString)) (list_ascii_of_string s)
  | Primitive _ => ∅
  end.

(** [config?.[key]] for a key that no built-in prototype defines, as
    [project] and [app]; [None] is [undefined]. *)
Definition property (config : option ConfigValue) (key : string) : option jsval :=
  match config with
  | None => None
  | Some (Record c) => c !! key
  | Some (Array items) =>
      if bool_decide (key = "length")
      then Some (VNum (Finite (Z.of_nat (length items)) 0))
      else match array_index key with Some i => items !! i | None => None end
  | Some (Primitive (VStr s)) =>
      if bool_decide (key = "length")
      then Some (VNum (Finite (Z.of_nat (String.length s)) 0))
      else match array_index key with
           | Some i => (fun a => VStr (String a EmptyString)) <$> list_ascii_of_string s !! i
           | None => None
           end
  | Some (Primitive _) => None
  end.

(** [{ ...globalConfig, ...localConfig }]: priority local > global. *)
Definition getMergedConfig : M FccConfig :=
  do globalConfig <- readGlobalConfig;
  do localConfig <- readConfig;
  let globalConfig := default (Record ∅) globalConfig in
  let localConfig := default (Record ∅) localConfig in
  ret (own_properties localConfig ∪ own_properties globalConfig).

Definition coerceConfigValue (key value : string) : outcome jsval :=
  if bool_decide (expected_type key = Some "number") then
    let num := StringToNumber value in
    if isNaN num then
      Throw (Error ("Value for " ++ dq ++ key ++ dq ++ " must be a number, got " ++
                    dq ++ value ++ dq ++ "."))
    else Return (VNum num)
  else Return (VStr value).

(** The body of the commands [fcc config set <key> <value>] and
    [fcc config set-global <key> <value>], without their console output. *)
Definition config_set (key value : string) : M jsval :=
  match coerceConfigValue key value with
  | Return coerced => run writeConfig key coerced; ret coerced
  | Throw e => throw e
  end.

Definition config_set_global (key value : string) : M jsval :=
  match coerceConfigValue key value with
  | Return coerced => run writeGlobalConfig key coerced; ret coerced
  | Throw e => throw e
  end.

End Config.

(** ** api/firebase-project.ts *)

Module Project.

Definition FIREBASE_API_BASE : string := "https://firebase.googleapis.com/v1beta1".

Record FirebaseProject := {
  projectId : option string;
  projectNumber : option string;
  displayName : option string;
  name_ : option string }.

Inductive Platform := ANDROID | IOS.

Record FirebaseApp := {
  platform : Platform;
  appId : string;
  app_display : string;
  packageName : option string;
  bundleId : option string }.

(** An authenticated GET to the Firebase Management API.  The result is the
    parsed body read at [T]; [None] is a body that is JSON [null]. *)
Definition firebaseApiGet (path : string) : M (option Payload) :=
  do accessToken <- Auth.getAccessToken;
  let url := FIREBASE_API_BASE ++ "/" ++ path in
  do r <- fetch {| r_method := "GET"; r_url := url;
                   r_authorization := Some ("Bearer " ++ accessToken);
                   r_body := NoBody |};
  match r with
  | NetworkFailure msg =>
      throw (Error ("Network error while calling Firebase API: " ++ msg))
  | Respond response =>
      if negb (ok response) then
        let body := text response in
        if status response =? 401 then
          throw (Error "Authentication failed. Your access token is invalid or expired. Try running `firebase login` again.")
        else if status response =? 403 then
          throw (Error "Access denied. You do not have permission to access this Firebase project.")
        else if status response =? 404 then
          throw (Error ("Firebase project not found. Verify the project ID is correct. API responded: " ++ body))
        else
          throw (Error ("Firebase API error (" ++ pretty (status response) ++ "): " ++ body))
      else
        match body response with
        | Malformed => throw (Error "Failed to parse JSON response from the Firebase API.")
        | JsonNull => ret None
        | Json data => ret (Some data)
        end
  end.

(** Reads [.firebaserc] in the working directory; [None] is [null].  The
    property read sits inside the [try], so a text that is JSON [null] ends in
    the same error as a text that does not parse. *)
Definition readFirebaseRc : M (option string) :=
  do rcPath <- (fun w => (Return (join [cwd w; ".firebaserc"]), w));
  do raw <- readFile rcPath firebaserc;
  match raw with
  | Absent => ret None
  | Unreadable msg => throw (Error ("Failed to read .firebaserc: " ++ msg))
  | Text (Json rc) =>
      ret (match projects rc with Some p => rc_default p | None => None end)
  | Text _ => throw (Error "Failed to parse .firebaserc. The file may be corrupted.")
  end.

(** [firebaseApiGet] as a task, for [listApps], which starts two of them
    before it awaits either. *)
Definition firebaseApiGet_task (path : string) : Task (option Payload) :=
  and_then Auth.getAccessToken_task (fun accessToken =>
  let url := FIREBASE_API_BASE ++ "/" ++ path in
  AwaitFetch {| r_method := "GET"; r_url := url;
                r_authorization := Some ("Bearer " ++ accessToken);
                r_body := NoBody |} (fun r =>
  match r with
  | NetworkFailure msg =>
      Settled (Throw (Error ("Network error while calling Firebase API: " ++ msg)))
  | Respond response =>
      if negb (ok response) then
        (* await response.text() *)
        AwaitBody
          (let body := text response in
           if status response =? 401 then
             Settled (Throw (Error "Authentication failed. Your access token is invalid or expired. Try running `firebase login` again."))
           else if status response =? 403 then
             Settled (Throw (Error "Access denied. You do not have permission to access this Firebase project."))
           else if status response =? 404 then
             Settled (Throw (Error ("Firebase project not found. Verify the project ID is correct. API responded: " ++ body)))
           else
             Settled (Throw (Error ("Firebase API error (" ++ pretty (status response) ++ "): " ++ body))))
      else
        (* await response.json() *)
        AwaitBody
          (match body response with
           | Malformed => Settled (Throw (Error "Failed to parse JSON response from the Firebase API."))
           | JsonNull => Settled (Return None)
           | Json data => Settled (Return (Some data))
           end)
  end)).

Section Host.

(** Number::toString of the runtime, met only when a config file holds a
    number where the interface announces a string. *)
Variable NumberToString : jsnum -> string.

(** A value interpolated in a template literal; an array is its items
    joined by commas, [null] items left out. *)
Fixpoint ToString (v : jsval) : string :=
  match v with
  | VNull => "null"
  | VBool true => "true"
  | VBool false => "false"
  | VNum n => NumberToString n
  | VStr s => s
  | VArray items =>
      String.concat "," (map (fun x => match x with VNull => "" | _ => ToString x end) items)
  | VObject _ => "[object Object]"
  end.

(** [v ?? undefined] followed by the test [if (!projectId)]: what is left is a
    value that counts as given. *)
Definition given (v : option jsval) : option jsval :=
  match v with
  | Some x => if truthy x then Some x else None
  | None => None
  end.

Definition resolveProject (projectIdOrFlag : option string) : M FirebaseProject :=
  let projectId := given (VStr <$> projectIdOrFlag) in
  (* 1. try .firebaserc *)
  do projectId <-
    match projectId with
    | Some _ => ret projectId
    | None => do rc <- readFirebaseRc; ret (given (VStr <$> rc))
    end;
  (* 2. try the local .fcc.json config *)
  do projectId <-
    match projectId with
    | Some _ => ret projectId
    | None =>
        do config <- Config.readConfig;
        ret (given (Config.property config "project"))
    end;
  match projectId with
  | None =>
      throw (Error "No project specified. Use --project <projectId>, `fcc set project <id>`, or run `fcc projects list` to see available projects.")
  | Some projectId =>
      (* convert projectId to projectNumber via the Firebase Management API *)
      do project <- firebaseApiGet ("projects/" ++ ToString projectId);
      match project with
      | None => throw (TypeError "projectId")
      | Some project =>
          ret {| projectId := p_projectId project;
                 projectNumber := p_projectNumber project;
                 displayName := p_displayName project;
                 name_ := p_name project |}
      end
  end.

(** The two listings are started together, the Android one first, and
    awaited together; [schedule] is the order in which the operations under
    way complete. *)
Definition listApps (projectNumber : string) (schedule : list bool)
    : M (list FirebaseApp) :=
  do responses <-
    (fun w =>
       let '(android, w1) :=
         resume (firebaseApiGet_task ("projects/" ++ projectNumber ++ "/androidApps")) w in
       let '(ios, w2) :=
         resume (firebaseApiGet_task ("projects/" ++ projectNumber ++ "/iosApps")) w1 in
       Promise_all schedule android ios w2);
  match responses with
  | (Some androidResponse, Some iosResponse) =>
      let android :=
        (fun app => {| platform := ANDROID; appId := app_appId app;
                       app_display := default "" (app_displayName app);
                       packageName := app_packageName app;
                       bundleId := None |}) <$> default [] (apps androidResponse) in
      let ios :=
        (fun app => {| platform := IOS; appId := app_appId app;
                       app_display := default "" (app_displayName app);
                       packageName := None;
                       bundleId := app_bundleId app |}) <$> default [] (apps iosResponse) in
      ret (android ++ ios)%list
  | _ => throw (TypeError "apps")
  end.

Definition resolveApp (appIdOrFlag : option string) (projectNumber : option string)
    (schedule : list bool) : M jsval :=
  (* 1. explicit flag *)
  match given (VStr <$> appIdOrFlag) with
  | Some appId => ret appId
  | None =>
      (* 2. try the local .fcc.json config *)
      do config <- Config.readConfig;
      match given (Config.property config "app") with
      | Some app => ret app
      | None =>
          (* 3. list apps and pick the first one *)
          match given (VStr <$> projectNumber) with
          | None =>
              throw (Error ("Could not determine the Firebase app. Provide --app <appId>, " ++
                            "or set it in .fcc.json, or provide --project so apps can be listed."))
          | Some pn =>
              do apps <- listApps (ToString pn) schedule;
              match apps with
              | [] =>
                  throw (Error ("No apps found in Firebase project " ++ Config.dq ++
                                ToString pn ++ Config.dq ++ ". " ++
                                "Register an app in the Firebase Console first."))
              | selectedApp :: _ => ret (VStr (appId selectedApp))
              end
          end
      end
  end.

End Host.

End Project.

(** ** class CrashlyticsClient *)

Module Crashlytics.

Definition BASE_URL : string := "https://firebasecrashlytics.googleapis.com/v1alpha".

Record CrashlyticsClient := {
  projectNumber : string;
  appId : string }.

(** The resource path prefix for all API calls. *)
Definition resourcePath (this : CrashlyticsClient) : string :=
  "projects/" ++ projectNumber this ++ "/apps/" ++ appId this.

(** The [options] of a request, with [queryParams] already flattened to the
    pairs appended to the URL and [body] already serialised. *)
Record RequestOptions := {
  queryParams : list (string * string);
  json_body : option string }.

Definition query_string (qs : list (string * string)) : string :=
  match qs with
  | [] => ""
  | _ => "?" ++ String.concat "&" ((fun kv => fst kv ++ "=" ++ snd kv) <$> qs)
  end.

(** The message of the 404 case of [request]. *)
Definition not_found_message (this : CrashlyticsClient) : string :=
  "Resource not found. Verify that project " ++ Config.dq ++
  projectNumber this ++ Config.dq ++ " and app " ++ Config.dq ++
  appId this ++ Config.dq ++ " exist and are correct.".

(** An authenticated request to the Crashlytics API; [None] is the empty
    result of a 204 (or a body that is JSON [null]). *)
Definition request (this : CrashlyticsClient) (method path : string)
    (options : option RequestOptions) : M (option Payload) :=
  do accessToken <- Auth.getAccessToken;
  let url := BASE_URL ++ "/" ++ path ++
             query_string (match options with Some o => queryParams o | None => [] end) in
  do r <- fetch {| r_method := method; r_url := url;
                   r_authorization := Some ("Bearer " ++ accessToken);
                   r_body := match options with
                             | Some {| json_body := Some b |} => JsonText b
                             | _ => NoBody
                             end |};
  match r with
  | NetworkFailure msg =>
      throw (Error ("Network error while calling Crashlytics API: " ++ msg))
  | Respond response =>
      if negb (ok response) then
        let errorBody := text response in
        if status response =? 401 then
          throw (CrashlyticsApiError
                   "Authentication failed. Your access token is invalid or expired. Try running `firebase login` again."
                   401 (statusText response))
        else if status response =? 403 then
          throw (CrashlyticsApiError
                   "Access denied. You do not have permission to access this resource. Check that your account has the required Firebase Crashlytics permissions."
                   403 (statusText response))
        else if status response =? 404 then
          throw (CrashlyticsApiError (not_found_message this) 404 (statusText response))
        else if status response =? 429 then
          throw (CrashlyticsApiError
                   "Rate limit exceeded. Too many requests to the Crashlytics API. Please wait a moment and try again."
                   429 (statusText response))
        else
          throw (CrashlyticsApiError
                   ("Crashlytics API error (" ++ pretty (status response) ++ "): " ++ errorBody)
                   (status response) (statusText response))
      else if status response =? 204 then ret None
      else
        match body response with
        | Malformed => throw (Error "Failed to parse JSON response from the Crashlytics API.")
        | JsonNull => ret None
        | Json data => ret (Some data)
        end
  end.

(** Retrieves a single issue by its ID. *)
Definition getIssue (this : CrashlyticsClient) (issueId : string) : M (option Payload) :=
  request this "GET" (resourcePath this ++ "/issues/" ++ issueId) None.

End Crashlytics.

(** ** Strings inside strings *)

(** [contains s p]: [s.includes(p)]. *)
Fixpoint contains (s p : string) : bool :=
  String.prefix p s ||
  match s with
  | EmptyString => false
  | String _ s' => contains s' p
  end.

(** ** Scenarios *)

Module Scenario.

Definition no_payload : Payload :=
  {| access_token := None; expires_in := None; error := None;
     error_description := None; p_projectId := None; p_projectNumber := None;
     p_displayName := None; p_name := None; apps := None |}.

Definition respond (code : Z) (txt : string) (b : parsed Payload) : reply :=
  Respond {| status := code; statusText := ""; text := txt; body := b |}.

(** A machine with home [/home/dev], working in [/work/app], where every I/O
    operation takes 5 ms and writes succeed. *)
Definition machine
    (ft : file FirebaseTokens) (rc : file FirebaseRc)
    (lc gc : file ConfigJson)
    (now : Z) (network : nat -> Request -> reply)
    (cached : option string) (expiresAt : option Z) : World :=
  {| homedir := "/home/dev"; cwd := "/work/app";
     firebase_tools := ft; firebaserc := rc;
     local_config := lc; global_config := gc;
     write_error := fun _ => None; mkdir_error := fun _ => None;
     clock := now; elapse := fun _ => 5%nat;
     net := network; trace := [];
     cachedAccessToken := cached; tokenExpiresAt := expiresAt |}.

Definition offline : nat -> Request -> reply := fun _ _ => NetworkFailure "fetch failed".

Definition logged_in : file FirebaseTokens :=
  Text (Json {| tokens := Some {| refresh_token := Some "1//refresh" |} |}).

(** The token endpoint grants [ya29.fresh] for an hour; every API answers 404. *)
Definition grants_then_404 : nat -> Request -> reply := fun _ req =>
  if bool_decide (r_url req = Auth.TOKEN_ENDPOINT) then
    respond 200 "" (Json {| access_token := Some "ya29.fresh"; expires_in := Some 3600;
                            error := None; error_description := None;
                            p_projectId := None; p_projectNumber := None;
                            p_displayName := None; p_name := None; apps := None |})
  else
    respond 404 "{error: not found}"
      (Json {| access_token := None; expires_in := None; error := Some "not found";
               error_description := None; p_projectId := None; p_projectNumber := None;
               p_displayName := None; p_name := None; apps := None |}).

Definition client : Crashlytics.CrashlyticsClient :=
  {| Crashlytics.projectNumber := "1234567890";
     Crashlytics.appId := "1:1234567890:android:0a1b2c" |}.

(** A fresh process of a logged-in user. *)
Definition fresh : World :=
  machine logged_in Absent Absent Absent 1700000000000 grants_then_404 None (Some 0).

(** The same machine [ms] milliseconds later, nothing else having happened. *)
Definition later (ms : Z) (w : World) : World :=
  {| homedir := homedir w; cwd := cwd w;
     firebase_tools := firebase_tools w; firebaserc := firebaserc w;
     local_config := local_config w; global_config := global_config w;
     write_error := write_error w; mkdir_error := mkdir_error w;
     clock := clock w + ms; elapse := elapse w; net := net w; trace := trace w;
     cachedAccessToken := cachedAccessToken w;
     tokenExpiresAt := tokenExpiresAt w |}.

End Scenario.

(** ** Vocabulary of the statements *)

(** The world once an I/O operation has been logged and has taken its time. *)
Definition after (ev : Event) (w : World) : World := snd (io ev w).

(** The reply the network gives to the next request. *)
Definition next_reply (w : World) (req : Request) : reply :=
  net w (length (fetches w)) req.

(** The path [getFirebaseConfigPath] computes. *)
Definition firebase_config_path (w : World) : string :=
  join [homedir w; ".config"; "configstore"; "firebase-tools.json"].

(** The two module variables of the token cache. *)
Definition cache (w : World) : option string * option Z :=
  (cachedAccessToken w, tokenExpiresAt w).

(** A cached token that [getAccessToken] would return as it is. *)
Definition cache_valid (w : World) : bool :=
  match cachedAccessToken w with
  | Some t => truthy_str t && Auth.before (clock w) (tokenExpiresAt w)
  | None => false
  end.

(** The machine after the sibling tool's config file was replaced. *)
Definition with_firebase_tools (f : file FirebaseTokens) (w : World) : World :=
  {| homedir := homedir w; cwd := cwd w;
     firebase_tools := f; firebaserc := firebaserc w;
     local_config := local_config w; global_config := global_config w;
     write_error := write_error w; mkdir_error := mkdir_error w;
     clock := clock w; elapse := elapse w; net := net w; trace := trace w;
     cachedAccessToken := cachedAccessToken w;
     tokenExpiresAt := tokenExpiresAt w |}.

(** The message [readRefreshToken] throws for a text that does not parse. *)
Definition config_corrupt_message (configPath : string) : string :=
  "Failed to parse Firebase CLI config at " ++ configPath ++
  ". The file may be corrupted. Try running `firebase login` again.".

(** The fresh process once it has obtained its first token. *)
Definition after_login : World := snd (Auth.getAccessToken Scenario.fresh).

(** A logged-in user without network. *)
Definition offline_world : World :=
  Scenario.machine Scenario.logged_in Absent Absent Absent 1700000000000
    Scenario.offline None (Some 0).

(** A fresh process that finds the sibling tool's file garbled. *)
Definition corrupt_fresh : World :=
  with_firebase_tools (Text Malformed) Scenario.fresh.


(** The states of a process that has found the sibling tool's file garbled
    at every call of [getAccessToken]: it starts with nothing cached; a call
    leads to another such state, and so does anything else that leaves the
    cache alone and the file garbled (time passing, other files changing). *)
Inductive garbled_process : World -> Prop :=
| garbled_start w :
    cachedAccessToken w = None -> firebase_tools w = Text Malformed ->
    garbled_process w
| garbled_call w :
    garbled_process w -> garbled_process (snd (Auth.getAccessToken w))
| garbled_step w w' :
    garbled_process w -> cache w' = cache w -> firebase_tools w' = Text Malformed ->
    garbled_process w'.

(** The record in a config file; a missing file and the text [null] count as
    the empty record, as [(await readConfig()) ?? {}] has it. *)
Definition content (f : file ConfigJson) : gmap string json :=
  match f with
  | Text (Json (RecordJson c)) => c
  | _ => ∅
  end.

(** A config file that holds a record, as the interface [FccConfig]
    announces; a missing file and the text [null] count as the empty one. *)
Definition holds_record (f : file ConfigJson) : bool :=
  match f with
  | Absent => true
  | Text JsonNull => true
  | Text (Json (RecordJson _)) => true
  | _ => false
  end.

(** A config file that can be read: it is missing, or its text parses. *)
Definition readable (f : file ConfigJson) : bool :=
  match f with
  | Absent => true
  | Text JsonNull => true
  | Text (Json _) => true
  | _ => false
  end.

(** What the file says at a key such as [project] or [app], which only a
    record can have; [None] is [undefined]. *)
Definition stored (f : file ConfigJson) (key : string) : option jsval :=
  of_json <$> content f !! key.

Definition local_path (w : World) : string := join [cwd w; ".fcc.json"].
Definition global_path (w : World) : string := join [homedir w; ".config"; "fcc"; "config.json"].
Definition global_dir (w : World) : string := join [homedir w; ".config"; "fcc"].

(** The files written so far. *)
Definition writes (w : World) : list string :=
  omap (fun ev => match ev with EvWriteFile p => Some p | _ => None end) (trace w).

(** The record a write of [key] leaves in a file that held [c]. *)
Definition written (key : string) (value : jsval) (c : gmap string json) : gmap string json :=
  to_json <$> Config.set_property key value (of_json <$> c).

(** The spec's merge example: global [{defaultType: "fatal"}], local
    [{defaultType: "anr"}], and a global-only page size. *)
Definition merge_world : World :=
  Scenario.machine Scenario.logged_in Absent
    (Text (Json (RecordJson {[ "defaultType"%string := JString "anr" ]})))
    (Text (Json (RecordJson (<[ "defaultLimit"%string := JNumber 25 0 ]>
                               {[ "defaultType"%string := JString "fatal" ]}))))
    1700000000000 Scenario.offline None (Some 0).

(** The request [getIssue] sends once it holds a token. *)
Definition issue_request (this : Crashlytics.CrashlyticsClient) (issueId accessToken : string)
    : Request :=
  {| r_method := "GET";
     r_url := Crashlytics.BASE_URL ++ "/" ++
              (Crashlytics.resourcePath this ++ "/issues/" ++ issueId) ++ "";
     r_authorization := Some ("Bearer " ++ accessToken);
     r_body := NoBody |}.

(** The resource path of a [getIssue] request. *)
Definition issue_path (this : Crashlytics.CrashlyticsClient) (issueId : string) : string :=
  Crashlytics.resourcePath this ++ "/issues/" ++ issueId.

(** The GET [firebaseApiGet] sends once it holds a token. *)
Definition management_request (path accessToken : string) : Request :=
  {| r_method := "GET";
     r_url := Project.FIREBASE_API_BASE ++ "/" ++ path;
     r_authorization := Some ("Bearer " ++ accessToken);
     r_body := NoBody |}.



(** The identity [resolveProject] builds from a response body. *)
Definition identity_of (project : Payload) : Project.FirebaseProject :=
  {| Project.projectId := p_projectId project;
     Project.projectNumber := p_projectNumber project;
     Project.displayName := p_displayName project;
     Project.name_ := p_name project |}.

(** The last step of [resolveProject]: the id found is exchanged for the
    identity the Management API reports. *)
Definition exchange (projectId : string) : M Project.FirebaseProject :=
  do project <- Project.firebaseApiGet ("projects/" ++ projectId);
  match project with
  | None => throw (TypeError "projectId")
  | Some project => ret (identity_of project)
  end.

Definition no_project_message : string :=
  "No project specified. Use --project <projectId>, `fcc set project <id>`, or run `fcc projects list` to see available projects.".

Definition rc_path (w : World) : string := join [cwd w; ".firebaserc"].

(** The spec's resolution scenario: [.firebaserc] defaults to [proj-B], the
    local config sets [proj-C]; the Management API knows the project asked
    for and reports it with a project number. *)
Definition project_payload (id number : string) : Payload :=
  {| access_token := None; expires_in := None; error := None;
     error_description := None;
     p_projectId := Some id; p_projectNumber := Some number;
     p_displayName := Some ("Demo " ++ id); p_name := Some ("projects/" ++ id);
     apps := None |}.

Definition project_api : nat -> Request -> reply := fun _ req =>
  if bool_decide (r_url req = Auth.TOKEN_ENDPOINT) then
    Scenario.respond 200 ""
      (Json {| access_token := Some "ya29.fresh"; expires_in := Some 3600;
               error := None; error_description := None;
               p_projectId := None; p_projectNumber := None;
               p_displayName := None; p_name := None; apps := None |})
  else if bool_decide (r_url req = Project.FIREBASE_API_BASE ++ "/projects/proj-A") then
    Scenario.respond 200 "" (Json (project_payload "proj-A" "1001"))
  else if bool_decide (r_url req = Project.FIREBASE_API_BASE ++ "/projects/proj-B") then
    Scenario.respond 200 "" (Json (project_payload "proj-B" "1002"))
  else if bool_decide (r_url req = Project.FIREBASE_API_BASE ++ "/projects/proj-C") then
    Scenario.respond 200 "" (Json (project_payload "proj-C" "1003"))
  else if bool_decide (r_url req = Project.FIREBASE_API_BASE ++ "/projects/1003/androidApps") then
    Scenario.respond 200 ""
      (Json {| access_token := None; expires_in := None; error := None;
               error_description := None; p_projectId := None; p_projectNumber := None;
               p_displayName := None; p_name := None;
               apps := Some [ {| app_appId := "1:1003:android:aaa";
                                 app_displayName := Some "Demo";
                                 app_packageName := Some "com.example.demo";
                                 app_bundleId := None |} ] |})
  else if bool_decide (r_url req = Project.FIREBASE_API_BASE ++ "/projects/1003/iosApps") then
    Scenario.respond 200 "" (Json Scenario.no_payload)
  else if bool_decide (r_url req = Project.FIREBASE_API_BASE ++ "/projects/1002/androidApps")
       || bool_decide (r_url req = Project.FIREBASE_API_BASE ++ "/projects/1002/iosApps") then
    Scenario.respond 200 "" (Json Scenario.no_payload)
  else Scenario.respond 404 "" Malformed.

Definition rc_B : file FirebaseRc :=
  Text (Json {| projects := Some {| rc_default := Some "proj-B" |} |}).

Definition local_C : file ConfigJson :=
  Text (Json (RecordJson {[ "project"%string := JString "proj-C" ]})).

Definition resolution_world (rc : file FirebaseRc) (lc : file ConfigJson) : World :=
  Scenario.machine Scenario.logged_in rc lc Absent 1700000000000 project_api None (Some 0).

(** A runtime whose numbers print as nothing, for the scenarios (none of
    which holds a number where a string belongs). *)
Definition no_numbers : jsnum -> string := fun _ => "".

Definition could_not_determine_app_message : string :=
  "Could not determine the Firebase app. Provide --app <appId>, " ++
  "or set it in .fcc.json, or provide --project so apps can be listed.".

(** The message of [resolveApp] for a project without apps. *)
Definition no_apps_message (projectNumber : string) : string :=
  "No apps found in Firebase project " ++ Config.dq ++ projectNumber ++ Config.dq ++ ". " ++
  "Register an app in the Firebase Console first.".

Definition local_app : file ConfigJson :=
  Text (Json (RecordJson {[ "app"%string := JString "1:1003:ios:ccc" ]})).

(** ** utils/formatter.ts *)

Module Formatter.

(** The first [n] units of a string. *)
Fixpoint take (n : nat) (s : string) : string :=
  match n, s with
  | S n', String c s' => String c (take n' s')
  | _, _ => EmptyString
  end.

(** [str.slice(0, end)] for an integer [end]: a negative [end] counts from
    the end of the string. *)
Definition slice0 (str : string) (e : Z) : string :=
  let len := Z.of_nat (String.length str) in
  let final := if e <? 0 then Z.max (len + e) 0 else Z.min e len in
  take (Z.to_nat final) str.

(** Truncates a string to [maxLen] characters, appending "..." if truncated;
    [maxLen] is an integer. *)
Definition truncate (str : string) (maxLen : Z) : string :=
  let len := Z.of_nat (String.length str) in
  if maxLen <? 4 then
    if len <=? maxLen then str else slice0 str maxLen
  else if len <=? maxLen then str
  else slice0 str (maxLen - 3) ++ "...".

End Formatter.

(** ** utils/date.ts *)

Module DateUtil.

(** [timeAgo]: [now] is [new Date().getTime()], [d] is the time value of the
    date passed in, [None] for an invalid date ([NaN]).  Every comparison with
    [NaN] is false, so an invalid date runs through to the last [return]. *)
Definition timeAgo (now : Z) (d : option Z) : string :=
  match d with
  | None => "NaN" ++ " year" ++ "" ++ " ago"
  | Some t =>
      let diffMs := now - t in
      (* handle future dates or very recent *)
      if diffMs <? 0 then "just now"
      else
        let seconds := diffMs / 1000 in
        let minutes := seconds / 60 in
        let hours := minutes / 60 in
        let days := hours / 24 in
        let weeks := days / 7 in
        let months := days / 30 in
        let years := days / 365 in
        if seconds <? 60 then "just now"
        else if minutes <? 60 then pretty minutes ++ "m ago"
        else if hours <? 24 then pretty hours ++ "h ago"
        else if days <? 7 then pretty days ++ " day" ++ (if 1 <? days then "s" else "") ++ " ago"
        else if weeks <? 5 then pretty weeks ++ " week" ++ (if 1 <? weeks then "s" else "") ++ " ago"
        else if months <? 12 then
          pretty months ++ " month" ++ (if 1 <? months then "s" else "") ++ " ago"
        else pretty years ++ " year" ++ (if 1 <? years then "s" else "") ++ " ago"
  end.

Definition day_ms : Z := 24 * 60 * 60 * 1000.

End DateUtil.

(** A token endpoint that grants tokens for 30 seconds only. *)
Definition short_lived_api : nat -> Request -> reply := fun _ _ =>
  Scenario.respond 200 ""
    (Json {| access_token := Some "ya29.brief"; expires_in := Some 30;
             error := None; error_description := None;
             p_projectId := None; p_projectNumber := None;
             p_displayName := None; p_name := None; apps := None |}).

Definition short_lived_world : World :=
  Scenario.machine Scenario.logged_in Absent Absent Absent 1700000000000
    short_lived_api None (Some 0).

(** A machine whose local config file is garbled and whose global one sets a
    page size. *)
Definition garbled_local_world : World :=
  Scenario.machine Scenario.logged_in Absent (Text Malformed)
    (Text (Json (RecordJson {[ "defaultLimit"%string := JNumber 25 0 ]})))
    1700000000000 Scenario.offline None (Some 0).

(** The message [readConfig] and [readGlobalConfig] throw for a text that
    does not parse. *)
Definition config_parse_message (scope configPath : string) : string :=
  "Failed to parse " ++ scope ++ " config at " ++ configPath ++
  ". The file may be corrupted.".

Definition firebaserc_parse_message : string :=
  "Failed to parse .firebaserc. The file may be corrupted.".

(** The scenario machine with a garbled [.firebaserc] next to a local config
    that sets a project. *)
Definition garbled_rc_world : World := resolution_world (Text Malformed) local_C.

(** The listing requests of [listApps]. *)
Definition android_path (projectNumber : string) : string :=
  "projects/" ++ projectNumber ++ "/androidApps".
Definition ios_path (projectNumber : string) : string :=
  "projects/" ++ projectNumber ++ "/iosApps".

(** The app ids of a listing response, in order. *)
Definition listed_ids (response : Payload) : list string :=
  app_appId <$> default [] (apps response).

(** *** The spec's precedences, read off the arguments and the files *)

(** [.firebaserc] can be read: it is missing, or it holds a JSON value other
    than [null]. *)
Definition rc_readable (f : file FirebaseRc) : bool :=
  match f with
  | Absent => true
  | Text (Json _) => true
  | _ => false
  end.

(** The default project [.firebaserc] names; [None] if it names none. *)
Definition rc_default_project (f : file FirebaseRc) : option string :=
  match f with
  | Text (Json rc) => match projects rc with Some p => rc_default p | None => None end
  | _ => None
  end.

(** The project id by the spec's precedence: the explicit argument, else the
    default project of [.firebaserc], else the [project] key of the local
    config file; a value that is empty does not count. *)
Definition preferred_project (flag : option string) (w : World) : option jsval :=
  match Project.given (VStr <$> flag) with
  | Some v => Some v
  | None =>
      match Project.given (VStr <$> rc_default_project (firebaserc w)) with
      | Some v => Some v
      | None => Project.given (stored (local_config w) "project")
      end
  end.

(** The world once the files that precedence has to look at have been read. *)
Definition consulted (flag : option string) (w : World) : World :=
  match Project.given (VStr <$> flag) with
  | Some _ => w
  | None =>
      let w1 := after (EvReadFile (rc_path w)) w in
      match Project.given (VStr <$> rc_default_project (firebaserc w)) with
      | Some _ => w1
      | None => after (EvReadFile (local_path w1)) w1
      end
  end.

(** The network serves a resource of the Management API: whenever the GET is
    sent, and whatever token it bears, the reply is a 2xx response with the
    body [data]. *)
Definition serves (w : World) (path : string) (data : Payload) : Prop :=
  forall n accessToken,
    exists response,
      net w n (management_request path accessToken) = Respond response /\
      ok response = true /\ body response = Json data.

(** A token can be had: the sibling tool's file holds a refresh token, and
    the token endpoint grants an access token whenever it is asked. *)
Definition grants (w : World) : Prop :=
  exists refreshToken,
    firebase_tools w = Text (Json {| tokens := Some {| refresh_token := Some refreshToken |} |}) /\
    truthy_str refreshToken = true /\
    forall n, exists response tokenData accessToken,
      net w n (Auth.token_request refreshToken) = Respond response /\
      ok response = true /\ body response = Json tokenData /\
      access_token tokenData = Some accessToken /\ truthy_str accessToken = true.

(** The apps [listApps] makes of two listings. *)
Definition listed_apps (androidResponse iosResponse : Payload) : list Project.FirebaseApp :=
  let android :=
    (fun app => {| Project.platform := Project.ANDROID; Project.appId := app_appId app;
                   Project.app_display := default "" (app_displayName app);
                   Project.packageName := app_packageName app;
                   Project.bundleId := None |}) <$> default [] (apps androidResponse) in
  let ios :=
    (fun app => {| Project.platform := Project.IOS; Project.appId := app_appId app;
                   Project.app_display := default "" (app_displayName app);
                   Project.packageName := None;
                   Project.bundleId := app_bundleId app |}) <$> default [] (apps iosResponse) in
  (android ++ ios)%list.

(** *** Tasks under every schedule *)

(** What no task changes: the network and the sibling tool's file. *)
Definition same_surroundings (w0 w : World) : Prop :=
  net w = net w0 /\ firebase_tools w = firebase_tools w0.

(** [yields w0 P t]: in the surroundings of [w0], whenever its operations
    start and complete, the task [t] settles with a value that satisfies [P]. *)
Inductive yields (w0 : World) {A : Type} (P : A -> Prop) : Task A -> Prop :=
| yields_Settled a : P a -> yields w0 P (Settled (Return a))
| yields_Look k :
    (forall w, same_surroundings w0 w -> yields w0 P (k w)) -> yields w0 P (Look k)
| yields_SetCachedAccessToken c rest :
    yields w0 P rest -> yields w0 P (SetCachedAccessToken c rest)
| yields_SetTokenExpiresAt e rest :
    yields w0 P rest -> yields w0 P (SetTokenExpiresAt e rest)
| yields_AwaitReadFile path k :
    yields w0 P (k (firebase_tools w0)) -> yields w0 P (AwaitReadFile path k)
| yields_AwaitFetch req k :
    (forall n, yields w0 P (k (net w0 n req))) -> yields w0 P (AwaitFetch req k)
| yields_AwaitBody rest :
    yields w0 P rest -> yields w0 P (AwaitBody rest).

Definition pending_yields (w0 : World) {A : Type} (P : A -> Prop) (p : Pending A) : Prop :=
  match p with
  | Finished (Return a) => P a
  | Finished (Throw _) => False
  | Waiting _ rest => yields w0 P rest
  end.

(** ** More of class CrashlyticsClient *)

Module Client.

Import Crashlytics.

(** The request [request] sends once it holds a token. *)
Definition client_request (method path : string) (options : option RequestOptions)
    (accessToken : string) : Request :=
  {| r_method := method;
     r_url := BASE_URL ++ "/" ++ path ++
              query_string (match options with Some o => queryParams o | None => [] end);
     r_authorization := Some ("Bearer " ++ accessToken);
     r_body := match options with
               | Some {| json_body := Some b |} => JsonText b
               | _ => NoBody
               end |}.

(** Lists all notes on an issue. *)
Definition listNotes (this : CrashlyticsClient) (issueId : string) : M (option Payload) :=
  request this "GET" (resourcePath this ++ "/issues/" ++ issueId ++ "/notes") None.

(** Deletes a specific note from an issue. *)
Definition deleteNote (this : CrashlyticsClient) (issueId noteId : string)
    : M (option Payload) :=
  request this "DELETE"
    (resourcePath this ++ "/issues/" ++ issueId ++ "/notes/" ++ noteId) None.

(** The [version] object of a report group. *)
Record VersionInfo := {
  displayVersion : option string;
  buildVersion : option string;
  v_displayName : option string }.

(** A report group, as far as [resolveVersionDisplayNames] reads it. *)
Record ReportGroup := { version : option VersionInfo }.

(** [v.displayVersion === input || v.buildVersion === input ||
    v.displayName === input] *)
Definition mentions (v : VersionInfo) (input : string) : bool :=
  bool_decide (displayVersion v = Some input) ||
  bool_decide (buildVersion v = Some input) ||
  bool_decide (v_displayName v = Some input).

(** The [for] loop over the groups: the first group whose version mentions
    the input decides. *)
Fixpoint first_match (groups : list ReportGroup) (input : string) : string :=
  match groups with
  | [] => input (* no match found: return the original *)
  | group :: rest =>
      match version group with
      | None => first_match rest input
      | Some v =>
          if mentions v input then default input (v_displayName v)
          else first_match rest input
      end
  end.

(** The callback of [versions.map] in [resolveVersionDisplayNames], on the
    groups of the TOP_VERSIONS report ([report.groups ?? []]). *)
Definition resolveVersionDisplayName (groups : list ReportGroup) (input : string) : string :=
  if contains input "(" then input else first_match groups input.

Definition resolveVersionDisplayNames_of (groups : list ReportGroup) (versions : list string)
    : list string :=
  resolveVersionDisplayName groups <$> versions.

End Client.

(** An API that answers every DELETE with an empty 204 and everything else
    with 429; tokens are granted. *)
Definition notes_api : nat -> Request -> reply := fun _ req =>
  if bool_decide (r_url req = Auth.TOKEN_ENDPOINT) then
    Scenario.respond 200 ""
      (Json {| access_token := Some "ya29.fresh"; expires_in := Some 3600;
               error := None; error_description := None;
               p_projectId := None; p_projectNumber := None;
               p_displayName := None; p_name := None; apps := None |})
  else if bool_decide (r_method req = "DELETE") then
    Respond {| status := 204; statusText := "No Content"; text := ""; body := Malformed |}
  else
    Respond {| status := 429; statusText := "Too Many Requests"; text := "slow down";
               body := Malformed |}.

Definition notes_world : World :=
  Scenario.machine Scenario.logged_in Absent Absent Absent 1700000000000 notes_api
    None (Some 0).

(** The groups of a TOP_VERSIONS report: two builds of 3.4.0 and one group
    without version. *)
Definition sample_groups : list Client.ReportGroup :=
  [ {| Client.version := None |};
    {| Client.version := Some {| Client.displayVersion := Some "3.4.0";
                                 Client.buildVersion := Some "30400";
                                 Client.v_displayName := Some "3.4.0 (30400)" |} |};
    {| Client.version := Some {| Client.displayVersion := Some "3.4.0";
                                 Client.buildVersion := Some "30401";
                                 Client.v_displayName := Some "3.4.0 (30401)" |} |} ].

(** ** The commands *)

Module Commands.

Import Config.

(** [extractEventId]: [name.split("/")] and its last part. *)
Fixpoint split_slash (s : string) : list string :=
  match s with
  | EmptyString => [EmptyString]
  | String c s' =>
      if bool_decide (c = "/"%char) then EmptyString :: split_slash s'
      else match split_slash s' with
           | part :: parts => String c part :: parts
           | [] => [String c EmptyString]
           end
  end.

Definition extractEventId (name : string) : string :=
  let parts := split_slash name in
  default name (last parts).

(** [String.prototype.toLowerCase], on the letters A to Z; no other character
    lowers to a letter of the words the flags are compared with. *)
Definition lower (c : ascii) : ascii :=
  let n := nat_of_ascii c in
  if (65 <=? n)%nat && (n <=? 90)%nat then ascii_of_nat (n + 32) else c.

Fixpoint toLowerCase (s : string) : string :=
  match s with
  | EmptyString => EmptyString
  | String c s' => String (lower c) (toLowerCase s')
  end.

Inductive IssueErrorType := FATAL | NON_FATAL | ANR.

(** [parseErrorType] of the reports commands. *)
Definition parseErrorType (type : string) : outcome IssueErrorType :=
  let t := toLowerCase type in
  if bool_decide (t = "fatal") then Return FATAL
  else if bool_decide (t = "nonfatal") || bool_decide (t = "non_fatal")
          || bool_decide (t = "non-fatal") then Return NON_FATAL
  else if bool_decide (t = "anr") then Return ANR
  else Throw (Error ("Invalid error type: " ++ dq ++ type ++ dq ++
                     ". Valid values: fatal, nonfatal, anr.")).

(** [mapErrorType] of the issues commands. *)
Definition mapErrorType (type : string) : outcome IssueErrorType :=
  let t := toLowerCase type in
  if bool_decide (t = "fatal") then Return FATAL
  else if bool_decide (t = "nonfatal") then Return NON_FATAL
  else if bool_decide (t = "anr") then Return ANR
  else Throw (Error ("Invalid error type: " ++ dq ++ type ++ dq ++
                     ". Expected one of: fatal, nonfatal, anr.")).

(** [parseInt(string, 10)]: leading white space, a sign, then as many digits
    as there are; [None] is [NaN].  The integer is exact. *)
Definition parseInt10 (s : string) : option Z :=
  let l := list_ascii_of_string s in
  let l := map ascii_of_nat
             (trim_start (length l) white_space (map nat_of_ascii l)) in
  let '(negative, l) :=
    match l with
    | c :: l' =>
        if bool_decide (c = "-"%char) then (true, l')
        else if bool_decide (c = "+"%char) then (false, l')
        else (false, l)
    | [] => (false, l)
    end in
  match number_of_digits 10 (fst (span_digits l)) with
  | Some n => Some (if negative then - n else n)
  | None => None
  end.

(** [limitGroups]: the groups of a report cut to the [--limit] option. *)
Definition limitGroups {A} (groups : list A) (limit : option string) : outcome (list A) :=
  match limit with
  | None => Return groups
  | Some limit =>
      if negb (truthy_str limit) then Return groups
      else
        match parseInt10 limit with
        | Some n =>
            if n <=? 0 then
              Throw (Error ("Invalid limit: " ++ dq ++ limit ++ dq ++
                            ". Must be a positive integer."))
            else Return (take (Z.to_nat n) groups)
        | None =>
            Throw (Error ("Invalid limit: " ++ dq ++ limit ++ dq ++
                          ". Must be a positive integer."))
        end
  end.

End Commands.

(** * Properties *)

(** ** Strings *)

Lemma prefix_app (p b : string) : String.prefix p (p ++ b) = true.
Proof.
  induction p as [|c p IH]; simpl.
  - now destruct b.
  - destruct (ascii_dec c c) as [_|Hne]; [exact IH | now destruct Hne].
Qed.

Lemma contains_prefix (s p : string) : String.prefix p s = true -> contains s p = true.
Proof. intros H. destruct s; cbn [contains]; rewrite H; reflexivity. Qed.

Lemma contains_app_l (a s p : string) : contains s p = true -> contains (a ++ s) p = true.
Proof.
  intros H. induction a as [|c a IH]; [exact H|].
  change (String c a ++ s) with (String c (a ++ s)).
  cbn [contains]. rewrite IH. apply orb_true_r.
Qed.

Lemma contains_app (a p b : string) : contains (a ++ p ++ b) p = true.
Proof.
  induction a as [|c a IH].
  - change ("" ++ p ++ b) with (p ++ b). apply contains_prefix, prefix_app.
  - change (String c a ++ p ++ b) with (String c (a ++ p ++ b)).
    cbn [contains]. rewrite IH. apply orb_true_r.
Qed.

(** ** [Number(string)] on sample inputs *)

Example Number_50 : StringToNumber "50" = Finite 50 0.
Proof. vm_compute. reflexivity. Qed.
Example Number_spaces : StringToNumber "  1.50e1 " = Finite 15 0.
Proof. vm_compute. reflexivity. Qed.
Example Number_fraction : StringToNumber "-.250" = Finite (-25) (-2).
Proof. vm_compute. reflexivity. Qed.
Example Number_exponent : StringToNumber "5e1" = Finite 50 0.
Proof. vm_compute. reflexivity. Qed.
Example Number_tiny : StringToNumber "1e-400" = Finite 0 0.
Proof. vm_compute. reflexivity. Qed.
Example Number_far : StringToNumber "1e-99999999999" = Finite 0 0.
Proof. vm_compute. reflexivity. Qed.
Example Number_not_hex : StringToNumber "-0x10" = NaN.
Proof. vm_compute. reflexivity. Qed.
Example Number_empty : StringToNumber "" = Finite 0 0.
Proof. vm_compute. reflexivity. Qed.
Example Number_hex : StringToNumber "0x1f" = Finite 31 0.
Proof. vm_compute. reflexivity. Qed.
Example Number_abc : StringToNumber "abc" = NaN.
Proof. vm_compute. reflexivity. Qed.
Example Number_inf : StringToNumber "-Infinity" = NegInf.
Proof. vm_compute. reflexivity. Qed.
Example Number_huge : StringToNumber "1e999" = PosInf.
Proof. vm_compute. reflexivity. Qed.
Example Number_max :
  StringToNumber "1.7976931348623157e308" = Finite (17976931348623157 * 10 ^ 292) 0.
Proof. vm_compute. reflexivity. Qed.
Example Number_over : StringToNumber "1.7976931348623159e308" = PosInf.
Proof. vm_compute. reflexivity. Qed.

Local Open Scope list_scope.

(** ** The token cache *)

Section TokenCache.

Import Auth.

(** A cache hit answers from memory and leaves the world as it is. *)
Lemma getAccessToken_hit (w : World) (t : string) :
  cachedAccessToken w = Some t ->
  truthy_str t = true ->
  before (clock w) (tokenExpiresAt w) = true ->
  getAccessToken w = (Return t, w).
Proof.
  intros Hc Ht Hb. unfold getAccessToken. now rewrite Hc, Ht, Hb.
Qed.

End TokenCache.

Section TokenCacheEffects.

Import Auth.

Lemma cache_valid_hit (w : World) :
  cache_valid w = true ->
  exists t, cachedAccessToken w = Some t /\ getAccessToken w = (Return t, w).
Proof.
  unfold cache_valid, getAccessToken.
  destruct (cachedAccessToken w) as [t|]; [|discriminate].
  intros ->. eauto.
Qed.

Lemma cache_invalid_miss (w : World) :
  cache_valid w = false ->
  getAccessToken w = bind readRefreshToken refreshAccessToken w.
Proof.
  unfold cache_valid, getAccessToken.
  destruct (cachedAccessToken w) as [t|]; [|reflexivity].
  now intros ->.
Qed.

(** Reading the credential costs one file read and touches nothing else. *)
Lemma readRefreshToken_world (w : World) :
  snd (readRefreshToken w) = after (EvReadFile (firebase_config_path w)) w.
Proof.
  unfold readRefreshToken, getFirebaseConfigPath, readFile, bind, after,
    firebase_config_path; simpl.
  destruct (firebase_tools w) as [|msg|[| |c]]; try reflexivity.
  destruct c as [[[[t|]]|]]; cbn; try reflexivity.
  now destruct (truthy_str t).
Qed.

(** The exchange sends one request; it writes the cache exactly when the reply
    is a 2xx response whose body carries a non-empty [access_token]. *)
Lemma refreshAccessToken_cases (rt : string) (w : World) :
  let w1 := after (EvFetch (token_request rt)) w in
  (exists e, refreshAccessToken rt w = (Throw e, w1)) \/
  (exists resp data t,
      next_reply w (token_request rt) = Respond resp /\
      ok resp = true /\ body resp = Json data /\
      access_token data = Some t /\ truthy_str t = true /\
      refreshAccessToken rt w =
        (Return t,
         snd (set_tokenExpiresAt
                ((fun ttl => clock w1 + (ttl - 60) * 1000) <$> expires_in data)
                (snd (set_cachedAccessToken (Some t) w1))))).
Proof.
  intros w1. unfold refreshAccessToken, bind, fetch.
  fold (next_reply w (token_request rt)).
  change (io (EvFetch (token_request rt)) w) with (Return tt, w1).
  destruct (next_reply w (token_request rt)) as [msg|resp] eqn:Hr.
  { left. eexists. reflexivity. }
  destruct (ok resp) eqn:Hok; simpl.
  2:{ left. eexists. reflexivity. }
  destruct (body resp) as [| |data] eqn:Hb; try (left; eexists; reflexivity).
  destruct (access_token data) as [t|] eqn:Ha; try (left; eexists; reflexivity).
  destruct (truthy_str t) eqn:Ht; try (left; eexists; reflexivity).
  right. exists resp, data, t. repeat split; assumption.
Qed.

End TokenCacheEffects.

Section TokenCacheCases.

Import Auth.

Lemma fetches_after_read (p : string) (w : World) :
  fetches (after (EvReadFile p) w) = fetches w.
Proof.
  unfold fetches, after; simpl. rewrite filter_app. simpl.
  apply app_nil_r.
Qed.

Lemma fetches_after_fetch (req : Request) (w : World) :
  fetches (after (EvFetch req) w) = fetches w ++ [EvFetch req].
Proof.
  unfold fetches, after; simpl. now rewrite filter_app.
Qed.

(** The three ways a call can go. *)
Lemma getAccessToken_cases (w : World) :
  let wr := after (EvReadFile (firebase_config_path w)) w in
  (cache_valid w = true /\
   exists t, cachedAccessToken w = Some t /\ truthy_str t = true /\
             getAccessToken w = (Return t, w)) \/
  (cache_valid w = false /\
   exists e, readRefreshToken w = (Throw e, wr) /\ getAccessToken w = (Throw e, wr)) \/
  (cache_valid w = false /\
   exists rt, readRefreshToken w = (Return rt, wr) /\
              getAccessToken w = refreshAccessToken rt wr).
Proof.
  intros wr. destruct (cache_valid w) eqn:Hv.
  - left. split; [reflexivity|].
    destruct (cache_valid_hit w Hv) as (t & Hc & Hg).
    exists t. repeat split; try assumption.
    unfold cache_valid in Hv. rewrite Hc in Hv.
    now apply andb_true_iff in Hv.
  - right. rewrite (cache_invalid_miss w Hv). unfold bind.
    pose proof (readRefreshToken_world w) as Hw. fold wr in Hw.
    destruct (readRefreshToken w) as [[rt|e] w1]; simpl in Hw; subst w1.
    + right. split; [reflexivity|]. exists rt. split; reflexivity.
    + left. split; [reflexivity|]. exists e. split; reflexivity.
Qed.

(** A token that was returned is the one in the cache, and it is not empty. *)
Lemma getAccessToken_returns_cached (w w1 : World) (t : string) :
  getAccessToken w = (Return t, w1) ->
  cachedAccessToken w1 = Some t /\ truthy_str t = true.
Proof.
  intros H.
  destruct (getAccessToken_cases w) as [(_ & t' & Hc & Ht & Hg)|[(_ & e & _ & Hg)|(_ & rt & _ & Hg)]];
    rewrite Hg in H.
  - injection H as -> ->. now split.
  - discriminate.
  - destruct (refreshAccessToken_cases rt (after (EvReadFile (firebase_config_path w)) w))
      as [(e & He)|(resp & data & t' & _ & _ & _ & _ & Ht & He)]; rewrite He in H.
    + discriminate.
    + injection H as -> <-. now split.
Qed.

End TokenCacheCases.

Section TokenCacheTheorems.

Import Auth.

(** C2: for every state in which a call to [getAccessToken] has returned a
    token, a further call made while the clock is still before the stored
    expiry returns the identical token and leaves the world exactly as it
    found it: no event is logged, so no request is sent and no file is read.
    The state of the second call may differ from the state the first call left
    in everything but the two cache variables. *)
Theorem getAccessToken_second_call_cached (w w1 w2 : World) (t : string) :
  getAccessToken w = (Return t, w1) ->
  cache w2 = cache w1 ->
  before (clock w2) (tokenExpiresAt w1) = true ->
  getAccessToken w2 = (Return t, w2).
Proof.
  intros Hfirst Hcache Hbefore.
  destruct (getAccessToken_returns_cached w w1 t Hfirst) as [Hc Ht].
  injection Hcache as Hc2 He2.
  apply getAccessToken_hit.
  - now rewrite Hc2.
  - exact Ht.
  - now rewrite He2.
Qed.

Lemma getAccessToken_second_call_cached_witness :
  getAccessToken (Scenario.later 1000 after_login) =
    (Return "ya29.fresh"%string, Scenario.later 1000 after_login).
Proof.
  apply (getAccessToken_second_call_cached Scenario.fresh after_login).
  - vm_compute. reflexivity.
  - reflexivity.
  - vm_compute. reflexivity.
Defined.

(** C10: a call to [getAccessToken] that fails leaves [cachedAccessToken] and
    [tokenExpiresAt] as they were; and a call that changes either of them
    returned the [access_token] of a 2xx reply of the token endpoint. *)
Theorem getAccessToken_failure_keeps_cache (w w' : World) (r : outcome string) :
  getAccessToken w = (r, w') ->
  (forall e, r = Throw e -> cache w' = cache w) /\
  (cache w' <> cache w ->
   exists rt resp data t,
     r = Return t /\
     next_reply (after (EvReadFile (firebase_config_path w)) w) (token_request rt)
       = Respond resp /\
     ok resp = true /\ body resp = Json data /\ access_token data = Some t).
Proof.
  intros H.
  destruct (getAccessToken_cases w)
    as [(_ & t & _ & _ & Hg)|[(_ & e & _ & Hg)|(_ & rt & _ & Hg)]];
    rewrite Hg in H.
  - injection H as <- <-. split; [reflexivity | congruence].
  - injection H as <- <-. split; [reflexivity | intros Hne; now destruct Hne].
  - destruct (refreshAccessToken_cases rt (after (EvReadFile (firebase_config_path w)) w))
      as [(e & He)|(resp & data & t & Hr & Hok & Hb & Ha & _ & He)]; rewrite He in H.
    + injection H as <- <-. split; [reflexivity | intros Hne; now destruct Hne].
    + injection H as <- <-. split; [discriminate|].
      intros _. exists rt, resp, data, t. repeat split; assumption.
Qed.

End TokenCacheTheorems.

Section TokenRefreshTheorems.

Import Auth.

Lemma getAccessToken_failure_keeps_cache_witness :
  cache (snd (getAccessToken offline_world)) = cache offline_world.
Proof.
  refine (proj1 (getAccessToken_failure_keeps_cache offline_world
                   (snd (getAccessToken offline_world))
                   (fst (getAccessToken offline_world)) _)
            (Error "Network error while refreshing access token: fetch failed") _).
  - vm_compute. reflexivity.
  - vm_compute. reflexivity.
Defined.



(** A refresh token that was read is read again as long as the file is left
    alone. *)
Lemma readRefreshToken_same_file (w w2 : World) (refreshToken : string) :
  firebase_tools w2 = firebase_tools w ->
  fst (readRefreshToken w) = Return refreshToken ->
  fst (readRefreshToken w2) = Return refreshToken.
Proof.
  unfold readRefreshToken, getFirebaseConfigPath, readFile, bind; simpl.
  intros ->. destruct (firebase_tools w) as [|msg|[| |[[[[t|]]|]]]]; simpl;
    try discriminate.
  destruct (truthy_str t); [trivial | discriminate].
Qed.

(** The whole cycle, with the credential left in place: a call that refreshed
    the token is followed, once the clock has reached the expiry it stored, by
    a call that sends exactly one refresh request. *)
Lemma getAccessToken_refresh_cycle (w w1 w2 : World) (t : string) :
  cache_valid w = false ->
  getAccessToken w = (Return t, w1) ->
  cache w2 = cache w1 ->
  firebase_tools w2 = firebase_tools w ->
  before (clock w2) (tokenExpiresAt w1) = false ->
  exists refreshToken,
    fst (readRefreshToken w) = Return refreshToken /\
    fetches (snd (getAccessToken w2)) = fetches w2 ++ [EvFetch (token_request refreshToken)].
Proof.
  intros Hv Hg Hc Hf Hb.
  assert (Hv2 : cache_valid w2 = false).
  { injection Hc as Hc1 Hc2. unfold cache_valid. rewrite Hc1, Hc2, Hb.
    destruct (cachedAccessToken w1); [apply andb_false_r | reflexivity]. }
  destruct (getAccessToken_cases w)
    as [(Hv' & _)|[(_ & e & Hr & Hg')|(_ & rt & Hr & Hg')]].
  - congruence.
  - rewrite Hg' in Hg. discriminate.
  - exists rt. split; [now rewrite Hr|].
    assert (Hr2 : fst (readRefreshToken w2) = Return rt).
    { apply (readRefreshToken_same_file w w2 rt Hf). now rewrite Hr. }
    destruct (getAccessToken_cases w2)
      as [(Hv' & _)|[(_ & e & Hr' & _)|(_ & rt' & Hr' & Hg2)]].
    + congruence.
    + rewrite Hr' in Hr2. discriminate.
    + rewrite Hr' in Hr2. injection Hr2 as ->. rewrite Hg2.
      destruct (refreshAccessToken_cases rt (after (EvReadFile (firebase_config_path w2)) w2))
        as [(e & He)|(resp & data & t' & _ & _ & _ & _ & _ & He)]; rewrite He; simpl.
      * rewrite fetches_after_fetch. now rewrite fetches_after_read.
      * change (fetches (after (EvFetch (token_request rt))
                           (after (EvReadFile (firebase_config_path w2)) w2)) =
                fetches w2 ++ [EvFetch (token_request rt)]).
        rewrite fetches_after_fetch. now rewrite fetches_after_read.
Qed.

(** C8: when the sibling tool's config file holds a text that is not JSON,
    [getAccessToken], having no unexpired token in its cache, fails with an
    error whose message names the path that was read, and no request is sent.
    (In a process that finds the file in this state the cache is never
    filled: see [getAccessToken_garbled_process].) *)
Theorem getAccessToken_corrupt_config (w : World) :
  cache_valid w = false ->
  firebase_tools w = Text Malformed ->
  let w' := after (EvReadFile (firebase_config_path w)) w in
  getAccessToken w = (Throw (Error (config_corrupt_message (firebase_config_path w))), w') /\
  contains (config_corrupt_message (firebase_config_path w)) (firebase_config_path w) = true /\
  fetches w' = fetches w.
Proof.
  intros Hv Hf w'. repeat split.
  - rewrite (cache_invalid_miss w Hv).
    subst w'.
    unfold bind, readRefreshToken, getFirebaseConfigPath, readFile, bind, after; simpl.
    rewrite Hf. reflexivity.
  - apply contains_app.
  - apply fetches_after_read.
Qed.

Lemma getAccessToken_corrupt_config_witness :
  fst (getAccessToken corrupt_fresh) =
    Throw (Error (config_corrupt_message "/home/dev/.config/configstore/firebase-tools.json")).
Proof.
  refine (f_equal fst (proj1 (getAccessToken_corrupt_config corrupt_fresh _ _))).
  - vm_compute. reflexivity.
  - reflexivity.
Defined.

(** In a process that has found the sibling tool's file garbled at every
    call, the cache is empty. *)
Lemma garbled_process_cache (w : World) :
  garbled_process w -> cachedAccessToken w = None /\ firebase_tools w = Text Malformed.
Proof.
  induction 1 as [w Hc Hf|w _ [Hc Hf]|w w' _ [Hc Hf] Hcache Hf'].
  - now split.
  - assert (Hv : cache_valid w = false) by (unfold cache_valid; now rewrite Hc).
    rewrite (cache_invalid_miss w Hv).
    unfold bind, readRefreshToken, getFirebaseConfigPath, readFile, bind; simpl.
    rewrite Hf. simpl. now split.
  - split; [|exact Hf']. injection Hcache as -> _. exact Hc.
Qed.

(** So every call of such a process fails with the parse error that names
    the path, without any request. *)
Lemma getAccessToken_garbled_process (w : World) :
  garbled_process w ->
  let w' := after (EvReadFile (firebase_config_path w)) w in
  getAccessToken w = (Throw (Error (config_corrupt_message (firebase_config_path w))), w') /\
  fetches w' = fetches w.
Proof.
  intros H w'. destruct (garbled_process_cache w H) as [Hc Hf].
  assert (Hv : cache_valid w = false) by (unfold cache_valid; now rewrite Hc).
  split; [|apply fetches_after_read].
  rewrite (cache_invalid_miss w Hv). subst w'.
  unfold bind, readRefreshToken, getFirebaseConfigPath, readFile, bind, after; simpl.
  now rewrite Hf.
Qed.

End TokenRefreshTheorems.

(** ** Numbers and JSON *)

Section Rounding.

Lemma pow10_pos (d : Z) : 0 <= d -> 0 < 10 ^ d.
Proof. intros. apply Z.pow_pos_nonneg; lia. Qed.

Lemma pow2_le_pow10 (d : Z) : 0 <= d -> 2 ^ d <= 10 ^ d.
Proof. intros. apply Z.pow_le_mono_l. lia. Qed.

Lemma log2_bound (m : Z) : 0 < m -> m < 2 ^ (Z.log2 m + 1).
Proof. intros H. replace (Z.log2 m + 1) with (Z.succ (Z.log2 m)) by lia. now apply Z.log2_spec. Qed.

Lemma overflows_spec (m e : Z) :
  0 < m ->
  overflows m e = true <->
  overflow_bound * 10 ^ Z.max 0 (- e) <= m * 10 ^ Z.max 0 e.
Proof.
  intros Hm. unfold overflows.
  assert (Hb : 0 < overflow_bound) by (vm_compute; reflexivity).
  destruct (0 <=? e) eqn:He.
  - apply Z.leb_le in He.
    replace (Z.max 0 (- e)) with 0 by lia. replace (Z.max 0 e) with e by lia.
    rewrite Z.pow_0_r, Z.mul_1_r.
    destruct (310 <=? e) eqn:H310.
    + apply Z.leb_le in H310. split; [intros _|reflexivity].
      assert (H1 : overflow_bound <= 10 ^ 310) by (vm_compute; discriminate).
      assert (H2 : 10 ^ 310 <= 10 ^ e) by (apply Z.pow_le_mono_r; lia).
      assert (H3 : 0 < 10 ^ e) by now apply pow10_pos.
      apply Z.le_trans with (10 ^ e); [exact (Z.le_trans _ _ _ H1 H2)|].
      rewrite <- (Z.mul_1_l (10 ^ e)) at 1.
      apply Z.mul_le_mono_nonneg_r; lia.
    + apply Z.leb_le.
  - apply Z.leb_gt in He.
    replace (Z.max 0 (- e)) with (- e) by lia. replace (Z.max 0 e) with 0 by lia.
    rewrite Z.pow_0_r, Z.mul_1_r.
    destruct (e + Z.log2 m + 1 <=? 308) eqn:Hs.
    + apply Z.leb_le in Hs. split; [discriminate|]. intros Hle. exfalso.
      pose proof (log2_bound m Hm) as Hlog.
      assert (H : 2 ^ (Z.log2 m + 1) <= 2 ^ (308 + - e)) by (apply Z.pow_le_mono_r; lia).
      rewrite (Z.pow_add_r 2 308 (- e)) in H by lia.
      assert (H1 : 2 ^ 308 <= overflow_bound) by (vm_compute; discriminate).
      pose proof (pow2_le_pow10 (- e) ltac:(lia)) as H2.
      assert (H3 : 0 <= 2 ^ (- e)) by (apply Z.pow_nonneg; lia).
      assert (H4 : 0 <= 2 ^ 308) by (apply Z.pow_nonneg; lia).
      assert (H5 : 2 ^ 308 * 2 ^ (- e) <= overflow_bound * 10 ^ (- e))
        by (apply Z.mul_le_mono_nonneg; assumption).
      remember (2 ^ 308 * 2 ^ (- e)) as x. remember (overflow_bound * 10 ^ (- e)) as y.
      remember (2 ^ (Z.log2 m + 1)) as z. lia.
    + apply Z.leb_le.
Qed.

Lemma underflows_spec (m e : Z) :
  0 < m ->
  underflows m e = true <-> e < 0 /\ m * 2 ^ 1075 <= 10 ^ (- e).
Proof.
  intros Hm. unfold underflows.
  destruct (0 <=? e) eqn:He.
  - apply Z.leb_le in He. split; [discriminate | lia].
  - apply Z.leb_gt in He.
    destruct (e + Z.log2 m + 1 <=? -324) eqn:Hs.
    + apply Z.leb_le in Hs. split; [intros _|reflexivity]. split; [exact He|].
      pose proof (log2_bound m Hm) as Hlog.
      pose proof (Z.log2_nonneg m) as Hnn.
      assert (H1 : 2 ^ (Z.log2 m + 1) <= 2 ^ (- e - 324)) by (apply Z.pow_le_mono_r; lia).
      assert (H2 : 2 ^ (- e - 324) * 2 ^ 1075 = 2 ^ (- e - 325) * 2 ^ 1076).
      { rewrite <- !Z.pow_add_r by lia. f_equal. lia. }
      assert (H3 : 2 ^ 1076 <= 10 ^ 325 ) by (vm_compute; discriminate).
      assert (H4 : 10 ^ (- e) = 10 ^ (- e - 325) * 10 ^ 325).
      { rewrite <- Z.pow_add_r by lia. f_equal. lia. }
      pose proof (pow2_le_pow10 (- e - 325) ltac:(lia)) as H5.
      assert (H6 : 0 <= 2 ^ (- e - 325)) by (apply Z.pow_nonneg; lia).
      assert (H7 : 0 <= 2 ^ 1075) by (apply Z.pow_nonneg; lia).
      assert (H8 : 0 <= 2 ^ 1076) by (apply Z.pow_nonneg; lia).
      assert (H9 : 2 ^ (- e - 325) * 2 ^ 1076 <= 10 ^ (- e - 325) * 10 ^ 325)
        by (apply Z.mul_le_mono_nonneg; assumption).
      assert (H10 : m * 2 ^ 1075 <= 2 ^ (- e - 324) * 2 ^ 1075).
      { apply Z.mul_le_mono_nonneg_r; [assumption|].
        apply Z.lt_le_incl, (Z.lt_le_trans _ _ _ Hlog H1). }
      rewrite H4. rewrite H2 in H10. exact (Z.le_trans _ _ _ H10 H9).
    + rewrite Z.leb_le. split; [intros H; split; [exact He | exact H] | intros [_ H]; exact H].
Qed.

Lemma drop_zeros_spec (fuel : nat) (m e : Z) :
  0 < m -> e <= 0 -> Z.log2 m < Z.of_nat fuel ->
  let '(m', e') := drop_zeros fuel m e in
  0 < m' /\ e <= e' <= 0 /\ m = m' * 10 ^ (e' - e) /\ (e' = 0 \/ m' mod 10 <> 0).
Proof.
  revert m e. induction fuel as [|fuel IH]; intros m e Hm He Hf.
  - pose proof (Z.log2_nonneg m). lia.
  - cbn [drop_zeros].
    destruct ((e <? 0) && (m mod 10 =? 0)) eqn:Hc.
    + apply andb_true_iff in Hc as [Hc1 Hc2]. apply Z.ltb_lt in Hc1. apply Z.eqb_eq in Hc2.
      assert (Hdiv : m = 10 * (m / 10)) by (pose proof (Z.div_mod m 10); lia).
      assert (Hpos : 0 < m / 10) by lia.
      assert (Hlog : Z.log2 (m / 10) < Z.of_nat fuel).
      { assert (Z.log2 (m / 10) < Z.log2 m); [|lia].
        assert (Hd : Z.log2 (2 * (m / 10)) = Z.succ (Z.log2 (m / 10))) by now apply Z.log2_double.
        assert (Z.log2 (2 * (m / 10)) <= Z.log2 m) by (apply Z.log2_le_mono; lia).
        lia. }
      specialize (IH (m / 10) (e + 1) Hpos ltac:(lia) Hlog).
      destruct (drop_zeros fuel (m / 10) (e + 1)) as [m' e'].
      destruct IH as (Hm' & He' & Hv & Hn).
      split; [exact Hm'|]. split; [lia|]. split; [|exact Hn].
      replace (e' - e) with (1 + (e' - (e + 1))) by lia.
      rewrite Z.pow_add_r by lia. rewrite Hdiv at 1. rewrite Hv at 1.
      change (10 ^ 1) with 10. ring.
    + split; [exact Hm|]. split; [lia|]. split.
      * now rewrite Z.sub_diag, Z.pow_0_r, Z.mul_1_r.
      * apply andb_false_iff in Hc as [Hc|Hc].
        -- apply Z.ltb_ge in Hc. left. lia.
        -- apply Z.eqb_neq in Hc. now right.
Qed.

Lemma canonical_spec (m e : Z) :
  0 < m ->
  let '(m', e') := canonical m e in
  0 < m' /\ e' <= 0 /\
  m * 10 ^ Z.max 0 e = m' * 10 ^ (e' + Z.max 0 (- e)) /\
  (e' = 0 \/ m' mod 10 <> 0) /\ (0 <= e -> e' = 0).
Proof.
  intros Hm. unfold canonical.
  destruct (0 <=? e) eqn:He.
  - apply Z.leb_le in He.
    assert (0 < 10 ^ e) by now apply pow10_pos.
    replace (Z.max 0 e) with e by lia. replace (Z.max 0 (- e)) with 0 by lia.
    rewrite Z.add_0_r, Z.pow_0_r, Z.mul_1_r.
    split; [apply Z.mul_pos_pos; assumption|]. split; [lia|]. split; [reflexivity|].
    split; [now left | reflexivity].
  - apply Z.leb_gt in He.
    pose proof (drop_zeros_spec (Z.to_nat (Z.log2 m + 1)) m e Hm ltac:(lia)) as H.
    pose proof (Z.log2_nonneg m).
    specialize (H ltac:(lia)).
    destruct (drop_zeros _ m e) as [m' e']. destruct H as (Hm' & He' & Hv & Hn).
    replace (Z.max 0 e) with 0 by lia. replace (Z.max 0 (- e)) with (- e) by lia.
    rewrite Z.pow_0_r, Z.mul_1_r.
    split; [exact Hm'|]. split; [lia|]. split.
    { now replace (e' + - e) with (e' - e) by lia. }
    split; [exact Hn | lia].
Qed.

Lemma canonical_fixed (m e : Z) :
  0 < m -> e <= 0 -> (e = 0 \/ m mod 10 <> 0) -> canonical m e = (m, e).
Proof.
  intros Hm He Hn. unfold canonical.
  destruct (0 <=? e) eqn:H0.
  - apply Z.leb_le in H0. assert (e = 0) by lia. subst e.
    now rewrite Z.pow_0_r, Z.mul_1_r.
  - apply Z.leb_gt in H0.
    destruct (Z.to_nat (Z.log2 m + 1)) as [|fuel]; [reflexivity|].
    cbn [drop_zeros].
    destruct Hn as [->|Hn]; [lia|].
    apply Z.eqb_neq in Hn. rewrite Hn. now rewrite andb_false_r.
Qed.

(** The decimal that names a double names that double. *)
Lemma round_magnitude_stable (m e m' e' : Z) :
  0 <= m ->
  round_magnitude m e = Finite m' e' ->
  0 <= m' /\ (m' = 0 -> e' = 0) /\ round_magnitude m' e' = Finite m' e'.
Proof.
  intros Hm. unfold round_magnitude at 1.
  destruct (m =? 0) eqn:H0.
  { intros [= <- <-]. split; [lia|]. split; reflexivity. }
  apply Z.eqb_neq in H0. assert (Hpos : 0 < m) by lia.
  destruct (overflows m e) eqn:Ho; [discriminate|].
  destruct (underflows m e) eqn:Hu.
  { intros [= <- <-]. split; [lia|]. split; reflexivity. }
  pose proof (canonical_spec m e Hpos) as Hc.
  destruct (canonical m e) as [m1 e1]. intros [= <- <-].
  destruct Hc as (Hm1 & He1 & Hv & Hn & Hz).
  split; [lia|]. split; [lia|].
  unfold round_magnitude.
  assert (Hne : (m1 =? 0) = false) by (apply Z.eqb_neq; lia). rewrite Hne.
  assert (Ho' : overflows m1 e1 = false).
  { apply not_true_iff_false. intros Ht.
    apply (overflows_spec m1 e1 Hm1) in Ht.
    apply not_true_iff_false in Ho. apply Ho.
    apply (overflows_spec m e Hpos).
    replace (Z.max 0 e1) with 0 in Ht by lia. rewrite Z.pow_0_r, Z.mul_1_r in Ht.
    replace (Z.max 0 (- e1)) with (- e1) in Ht by lia.
    rewrite Hv.
    destruct (Z_lt_le_dec (e1 + Z.max 0 (- e)) 0) as [Hs|Hs].
    - exfalso. destruct (Z_le_dec 0 e) as [Hge|Hlt].
      + specialize (Hz Hge). lia.
      + replace (Z.max 0 e) with 0 in Hv by lia.
        rewrite Z.pow_0_r, Z.mul_1_r in Hv.
        rewrite (Z.pow_neg_r 10 _ Hs) in Hv. lia.
    - assert (H10 : 10 ^ Z.max 0 (- e) = 10 ^ (- e1) * 10 ^ (e1 + Z.max 0 (- e))).
      { rewrite <- Z.pow_add_r by lia. f_equal. lia. }
      rewrite H10, Z.mul_assoc.
      apply Z.mul_le_mono_nonneg_r; [|exact Ht].
      apply Z.pow_nonneg. lia. }
  rewrite Ho'.
  assert (Hu' : underflows m1 e1 = false).
  { apply not_true_iff_false. intros Ht.
    apply (underflows_spec m1 e1 Hm1) in Ht. destruct Ht as [Hneg Ht].
    apply not_true_iff_false in Hu. apply Hu.
    apply (underflows_spec m e Hpos).
    destruct (Z_le_dec 0 e) as [Hge|Hlt]; [specialize (Hz Hge); lia|].
    split; [lia|].
    replace (Z.max 0 e) with 0 in Hv by lia.
    replace (Z.max 0 (- e)) with (- e) in Hv by lia.
    rewrite Z.pow_0_r, Z.mul_1_r in Hv.
    destruct (Z_lt_le_dec (e1 + - e) 0) as [Hs|Hs].
    { rewrite (Z.pow_neg_r 10 _ Hs) in Hv. lia. }
    assert (H10 : 10 ^ (- e) = 10 ^ (- e1) * 10 ^ (e1 + - e)).
    { rewrite <- Z.pow_add_r by lia. f_equal. lia. }
    rewrite H10, Hv.
    replace (m1 * 10 ^ (e1 + - e) * 2 ^ 1075) with (m1 * 2 ^ 1075 * 10 ^ (e1 + - e)) by ring.
    apply Z.mul_le_mono_nonneg_r; [|exact Ht].
    apply Z.pow_nonneg. lia. }
  rewrite Hu'.
  now rewrite (canonical_fixed m1 e1 Hm1 He1 Hn).
Qed.

Lemma number_of_decimal_stable (m e m' e' : Z) :
  number_of_decimal m e = Finite m' e' ->
  number_of_decimal m' e' = Finite m' e'.
Proof.
  unfold number_of_decimal at 1.
  destruct (m <? 0) eqn:Hneg.
  - apply Z.ltb_lt in Hneg.
    destruct (round_magnitude (- m) e) as [| | |m1 e1] eqn:Hr; try discriminate.
    intros [= <- <-].
    destruct (round_magnitude_stable (- m) e m1 e1 ltac:(lia) Hr) as (Hm1 & Hz & Hs).
    unfold number_of_decimal.
    destruct (- m1 <? 0) eqn:Hn1.
    + rewrite Z.opp_involutive, Hs. reflexivity.
    + apply Z.ltb_ge in Hn1. assert (m1 = 0) by lia. subst m1.
      rewrite (Hz eq_refl). reflexivity.
  - apply Z.ltb_ge in Hneg. intros Hr.
    destruct (round_magnitude_stable m e m' e' Hneg Hr) as (Hm1 & Hz & Hs).
    unfold number_of_decimal.
    assert (Hn1 : (m' <? 0) = false) by (apply Z.ltb_ge; lia). now rewrite Hn1.
Qed.

End Rounding.

Section JsonRoundTrip.

Lemma jsval_nested_ind (P : jsval -> Prop) :
  P VNull -> (forall b, P (VBool b)) -> (forall n, P (VNum n)) -> (forall s, P (VStr s)) ->
  (forall items, Forall P items -> P (VArray items)) ->
  (forall fields, Forall (fun kv => P (snd kv)) fields -> P (VObject fields)) ->
  forall v, P v.
Proof.
  intros Hnull Hbool Hnum Hstr Harr Hobj.
  fix IH 1. intros [|b|n|s|items|fields].
  - exact Hnull.
  - apply Hbool.
  - apply Hnum.
  - apply Hstr.
  - apply Harr. induction items as [|x l IHl]; constructor; [apply IH | exact IHl].
  - apply Hobj. induction fields as [|[k x] l IHl]; constructor; [apply IH | exact IHl].
Qed.

(** Writing what was read from what was written writes the same again. *)
Lemma to_json_roundtrip (v : jsval) : to_json (json_roundtrip v) = to_json v.
Proof.
  unfold json_roundtrip.
  induction v as [|b|n|s|items IH|fields IH] using jsval_nested_ind; cbn [to_json of_json].
  - reflexivity.
  - reflexivity.
  - destruct n as [| | |m e]; try reflexivity.
    destruct (number_of_decimal m e) as [| | |m' e'] eqn:Hn; try reflexivity.
    cbn [of_json to_json].
    rewrite (number_of_decimal_stable m e m' e' Hn). cbn [to_json].
    now rewrite (number_of_decimal_stable m e m' e' Hn).
  - reflexivity.
  - f_equal. rewrite !map_map. induction IH as [|x l Hx _ IHl]; [reflexivity|].
    cbn [map]. now rewrite Hx, IHl.
  - f_equal. rewrite !map_map. induction IH as [|[k x] l Hx _ IHl]; [reflexivity|].
    cbn [map fst snd] in *. now rewrite Hx, IHl.
Qed.

Lemma json_roundtrip_idempotent (v : jsval) :
  json_roundtrip (json_roundtrip v) = json_roundtrip v.
Proof. unfold json_roundtrip at 1 3. f_equal. apply to_json_roundtrip. Qed.

(** What was read from a text is storable. *)
Lemma storable_roundtrip (v : jsval) : storable (json_roundtrip v) = true.
Proof. unfold storable. apply bool_decide_eq_true_2, json_roundtrip_idempotent. Qed.

End JsonRoundTrip.

Section JsonInRange.



End JsonInRange.

(** ** The config store *)

Section ConfigStore.

Import Config.

Lemma of_to_json (v : jsval) : storable v = true -> of_json (to_json v) = v.
Proof.
  unfold storable, json_roundtrip. intros H. now apply bool_decide_eq_true in H.
Qed.


(** A write of a known key is read back as [JSON.parse] reads what
    [JSON.stringify] wrote. *)
Lemma written_key (key : string) (value : jsval) (c : gmap string json) :
  key <> "__proto__"%string ->
  (of_json <$> written key value c) !! key = Some (json_roundtrip value).
Proof.
  intros Hne. unfold written, set_property.
  rewrite bool_decide_eq_false_2 by assumption. cbn [andb].
  now rewrite !lookup_fmap, lookup_insert_eq.
Qed.


Lemma known_key_not_proto (key : string) :
  known_key key = true -> key <> "__proto__"%string.
Proof.
  unfold known_key. intros H ->. vm_compute in H. discriminate.
Qed.

(** What a reader makes of a file that holds a record. *)
End ConfigStore.

Section ConfigWrites.

Import Config.



(** On a file that holds a record the read and the assignment succeed: the
    write fails, or the file now holds the old record with the one key set. *)
Lemma writeConfig_cases (key : string) (value : jsval) (w : World) :
  holds_record (local_config w) = true ->
  let wr := after (EvReadFile (local_path w)) w in
  let ww := after (EvWriteFile (local_path w)) wr in
  (exists e, writeConfig key value w = (Throw e, ww)) \/
  writeConfig key value w =
    (Return tt,
     snd (set_local_config
            (Text (Json (RecordJson (written key value (content (local_config w)))))) ww)).
Proof.
  intros Hrec.
  unfold writeConfig, readConfig, read_config_file, getLocalConfigPath, readFile,
    writeFile, bind, after, local_path, written; simpl.
  destruct (local_config w) as [|msg|[| |[c|items|b|m e|s]]]; try discriminate; simpl;
    destruct (write_error w (join [cwd w; ".fcc.json"]));
    try (left; eexists; reflexivity);
    right; try reflexivity.
  all: rewrite fmap_empty; reflexivity.
Qed.

Lemma writeGlobalConfig_cases (key : string) (value : jsval) (w : World) :
  holds_record (global_config w) = true ->
  let wm := after (EvMkdir (global_dir w)) w in
  let wr := after (EvReadFile (global_path w)) wm in
  let ww := after (EvWriteFile (global_path w)) wr in
  (exists e, writeGlobalConfig key value w = (Throw e, wm)) \/
  (exists e, writeGlobalConfig key value w = (Throw e, ww)) \/
  writeGlobalConfig key value w =
    (Return tt,
     snd (set_global_config
            (Text (Json (RecordJson (written key value (content (global_config w)))))) ww)).
Proof.
  intros Hrec.
  unfold writeGlobalConfig, readGlobalConfig, read_config_file, getGlobalConfigPath,
    readFile, writeFile, mkdir, bind, after, global_path, global_dir, written; simpl.
  destruct (mkdir_error w (join [homedir w; ".config"; "fcc"])); simpl;
    [left; eexists; reflexivity|].
  right.
  destruct (global_config w) as [|msg|[| |[c|items|b|m e|s]]]; try discriminate; simpl;
    destruct (write_error w (join [homedir w; ".config"; "fcc"; "config.json"]));
    try (left; eexists; reflexivity);
    right; try reflexivity.
  all: rewrite fmap_empty; reflexivity.
Qed.

End ConfigWrites.

Section ConfigFrame.

Import Config.







(** Why the condition on the other keys is there: a number written beyond the
    range of doubles, as [1e999], is read as Infinity and written back as
    [null] by a write of any other key. *)
Example config_write_rounds_other_keys :
  let w := Scenario.machine Scenario.logged_in Absent
             (Text (Json (RecordJson {[ "x"%string := JNumber 1 999 ]}))) Absent
             1700000000000 Scenario.offline None (Some 0) in
  stored (local_config w) "x" = Some (VNum PosInf) /\
  stored (local_config (snd (writeConfig "project" (VStr "a") w))) "x" = Some VNull.
Proof. vm_compute. split; reflexivity. Qed.

(** And why the record is: on a file that holds an array the write succeeds
    and stores nothing. *)
Example config_write_on_array :
  let w := Scenario.machine Scenario.logged_in Absent
             (Text (Json (ArrayJson []))) Absent
             1700000000000 Scenario.offline None (Some 0) in
  fst (writeConfig "project" (VStr "a") w) = Return tt /\
  local_config (snd (writeConfig "project" (VStr "a") w)) = local_config w.
Proof. vm_compute. split; reflexivity. Qed.

End ConfigFrame.

Section ConfigMerge.

Import Config.

(** C5: when both files can be read, the merged configuration has, at every
    key, the local value if the local record has the key and the global value
    otherwise; so it is the union of the two records, and a key present in
    both resolves to the local value.  (The record of what a reader returned
    is that of its own properties; [null] counts as the empty record.) *)
Theorem getMergedConfig_local_over_global
    (w w1 w2 : World) (globalConfig localConfig : option ConfigValue) :
  readGlobalConfig w = (Return globalConfig, w1) ->
  readConfig w1 = (Return localConfig, w2) ->
  let l := own_properties (default (Record ∅) localConfig) in
  let g := own_properties (default (Record ∅) globalConfig) in
  exists merged,
    getMergedConfig w = (Return merged, w2) /\
    (forall k, merged !! k =
               match l !! k with
               | Some v => Some v
               | None => g !! k
               end) /\
    dom merged = dom l ∪ dom g /\
    (forall k vl vg,
        l !! k = Some vl ->
        g !! k = Some vg ->
        merged !! k = Some vl).
Proof.
  intros Hg Hl l g. exists (l ∪ g).
  repeat split.
  - unfold getMergedConfig, bind. now rewrite Hg, Hl.
  - intros k. rewrite lookup_union.
    destruct (l !! k), (g !! k); reflexivity.
  - apply dom_union_L.
  - intros k vl vg Hvl _. now apply lookup_union_Some_l.
Qed.

Lemma getMergedConfig_local_over_global_witness :
  exists merged,
    fst (getMergedConfig merge_world) = Return merged /\
    merged !! "defaultType"%string = Some (VStr "anr") /\
    merged !! "defaultLimit"%string = Some (VNum (Finite 25 0)).
Proof.
  destruct (getMergedConfig_local_over_global merge_world
              (snd (readGlobalConfig merge_world))
              (snd (readConfig (snd (readGlobalConfig merge_world))))
              (Some (Record (of_json <$> content (global_config merge_world))))
              (Some (Record (of_json <$> content (local_config merge_world))))
              eq_refl eq_refl) as (merged & Hm & Hk & _).
  exists merged. split; [now rewrite Hm|].
  rewrite !Hk. split; vm_compute; reflexivity.
Defined.

End ConfigMerge.

Section ConfigRoundTrip.

Import Config.

(** The round trip of a config write.  For a known key the coercion yields
    the string itself, or for the numeric key the number [Number(value)]
    unless that is [NaN], in which case it throws the "must be a number"
    error.  Whenever the coerced value is one a JSON text can hold (a string
    or a finite number) and the file of the scope holds a record (or is
    missing), a write to the scope that succeeds is followed by a read of
    that scope that returns a record with the coerced value at the key. *)
Theorem config_write_then_read (key value : string) :
  known_key key = true ->
  (coerceConfigValue key value =
     if bool_decide (key = "defaultLimit"%string) then
       if isNaN (StringToNumber value) then
         Throw (Error ("Value for " +:+ dq +:+ key +:+ dq +:+ " must be a number, got " +:+
                       dq +:+ value +:+ dq +:+ "."))
       else Return (VNum (StringToNumber value))
     else Return (VStr value)) /\
  (forall coerced, coerceConfigValue key value = Return coerced ->
     storable coerced = true ->
     (forall w w', holds_record (local_config w) = true ->
        writeConfig key coerced w = (Return tt, w') ->
        exists c, fst (readConfig w') = Return (Some (Record c)) /\
                  c !! key = Some coerced) /\
     (forall w w', holds_record (global_config w) = true ->
        writeGlobalConfig key coerced w = (Return tt, w') ->
        exists c, fst (readGlobalConfig w') = Return (Some (Record c)) /\
                  c !! key = Some coerced)).
Proof.
  intros Hknown. split.
  - unfold known_key in Hknown. apply bool_decide_eq_true in Hknown.
    unfold coerceConfigValue.
    repeat (apply elem_of_cons in Hknown as [->|Hknown]; [reflexivity|]).
    now apply elem_of_nil in Hknown.
  - intros coerced _ Hst.
    pose proof (known_key_not_proto key Hknown) as Hne.
    assert (Hrt : json_roundtrip coerced = coerced) by now apply of_to_json.
    split; intros w w' Hrec Hw.
    + destruct (writeConfig_cases key coerced w Hrec) as [(e & H)|H];
        rewrite H in Hw; try discriminate.
      injection Hw as <-.
      eexists. split; [reflexivity|].
      rewrite written_key by assumption. now rewrite Hrt.
    + destruct (writeGlobalConfig_cases key coerced w Hrec) as [(e & H)|[(e & H)|H]];
        rewrite H in Hw; try discriminate.
      injection Hw as <-.
      eexists. split; [reflexivity|].
      rewrite written_key by assumption. now rewrite Hrt.
Qed.

(** Writing ["50"] to [defaultLimit] and reading yields the number 50. *)
Lemma config_write_then_read_witness :
  exists c,
    fst (readConfig (snd (writeConfig "defaultLimit" (VNum (Finite 50 0)) Scenario.fresh)))
      = Return (Some (Record c)) /\
    c !! "defaultLimit"%string = Some (VNum (Finite 50 0)).
Proof.
  refine (proj1 (proj2 (config_write_then_read "defaultLimit" "50" _)
                   (VNum (Finite 50 0)) _ _) Scenario.fresh _ _ _).
  - reflexivity.
  - vm_compute. reflexivity.
  - vm_compute. reflexivity.
  - reflexivity.
  - vm_compute. reflexivity.
Defined.

(** C4: at the known key [defaultLimit] and the value ["Infinity"] the round
    trip is broken.  The coercion does not fail: it accepts the string as the
    number Infinity; the write to the local scope succeeds; and the read of
    the same scope returns [null] at the key, not the coerced number. *)
Lemma config_write_then_read_Infinity :
  known_key "defaultLimit" = true /\
  coerceConfigValue "defaultLimit" "Infinity" = Return (VNum PosInf) /\
  fst (writeConfig "defaultLimit" (VNum PosInf) Scenario.fresh) = Return tt /\
  exists c,
    fst (readConfig (snd (writeConfig "defaultLimit" (VNum PosInf) Scenario.fresh)))
      = Return (Some (Record c)) /\
    c !! "defaultLimit"%string = Some VNull.
Proof.
  repeat split. eexists. split; reflexivity.
Qed.

End ConfigRoundTrip.

(** ** The request layer *)

Section RequestLayer.

Import Crashlytics.

(** C1, as the code has it: when the Crashlytics API answers the request of
    [getIssue] with status 404, the call fails with a [CrashlyticsApiError] of
    status code 404 whose message contains the project number and the app id
    of the client, literally. *)
Theorem getIssue_404_names_project_and_app
    (this : CrashlyticsClient) (issueId accessToken : string)
    (w w1 : World) (response : Response) :
  Auth.getAccessToken w = (Return accessToken, w1) ->
  next_reply w1 (issue_request this issueId accessToken) = Respond response ->
  status response = 404 ->
  fst (getIssue this issueId w) =
    Throw (CrashlyticsApiError (not_found_message this) 404 (statusText response)) /\
  contains (not_found_message this) (projectNumber this) = true /\
  contains (not_found_message this) (appId this) = true.
Proof.
  intros Htok Hreply Hstatus. repeat split.
  - unfold getIssue, request, bind. rewrite Htok.
    unfold fetch. simpl query_string.
    fold (issue_request this issueId accessToken).
    fold (next_reply w1 (issue_request this issueId accessToken)).
    rewrite Hreply. simpl.
    unfold ok. rewrite Hstatus. reflexivity.
  - unfold not_found_message.
    apply (contains_app ("Resource not found. Verify that project " +:+ Config.dq)).
  - unfold not_found_message.
    do 6 apply contains_app_l. apply contains_prefix, prefix_app.
Qed.

Lemma getIssue_404_names_project_and_app_witness :
  fst (getIssue Scenario.client "abc" Scenario.fresh) =
    Throw (CrashlyticsApiError (not_found_message Scenario.client) 404 "").
Proof.
  refine (proj1 (getIssue_404_names_project_and_app Scenario.client "abc" "ya29.fresh"
                   Scenario.fresh after_login
                   {| status := 404; statusText := ""; text := "{error: not found}";
                      body := Json {| access_token := None; expires_in := None;
                                      error := Some "not found"%string;
                                      error_description := None; p_projectId := None;
                                      p_projectNumber := None; p_displayName := None;
                                      p_name := None; apps := None |} |} _ _ _)).
  - vm_compute. reflexivity.
  - vm_compute. reflexivity.
  - reflexivity.
Defined.

(** C1 as stated fails: the message of the 404 error holds neither the
    resource path of the request nor the client's resource path prefix. *)
Lemma getIssue_404_message_lacks_resource_path :
  exists e,
    fst (getIssue Scenario.client "abc" Scenario.fresh) = Throw e /\
    statusCode e = Some 404 /\
    contains (message e) (issue_path Scenario.client "abc") = false /\
    contains (message e) (resourcePath Scenario.client) = false.
Proof.
  eexists. split; [vm_compute; reflexivity|]. vm_compute. repeat split.
Qed.

End RequestLayer.

(** ** Project and app resolution *)

Section ManagementApi.

Import Auth Project.







End ManagementApi.

Section ProjectResolution.

Import Auth Config Project.

Variable NumberToString : jsnum -> string.






End ProjectResolution.

(** ** Tasks: the awaited form, and every schedule *)

Section TasksAwaited.

Import Auth Project.

(** An operation that is started and completed at once is awaited. *)
Lemma io_log_tick (ev : Event) (w : World) :
  io ev w = (Return tt, tick (elapse w (length (trace w))) (log ev w)).
Proof. reflexivity. Qed.






End TasksAwaited.

Section TasksScheduled.

Import Auth Project.

Lemma same_surroundings_refl (w : World) : same_surroundings w w.
Proof. now split. Qed.

Lemma same_surroundings_after (w0 w : World) (ev : Event) :
  same_surroundings w0 w -> same_surroundings w0 (after ev w).
Proof. intros H. exact H. Qed.

Lemma yields_and_then {A B} (w0 : World) (P : A -> Prop) (Q : B -> Prop)
    (t : Task A) (f : A -> Task B) :
  yields w0 P t -> (forall a, P a -> yields w0 Q (f a)) -> yields w0 Q (and_then t f).
Proof.
  intros Ht Hf. induction Ht; simpl; try (constructor; auto).
  now apply Hf.
Qed.

(** A task that yields keeps doing so from one await to the next. *)
Lemma resume_yields {A} (w0 : World) (P : A -> Prop) (t : Task A) :
  yields w0 P t ->
  forall w, same_surroundings w0 w ->
    pending_yields w0 P (fst (resume t w)) /\ same_surroundings w0 (snd (resume t w)).
Proof.
  induction 1 as [a Ha|k Hk IH|c rest Hr IH|e rest Hr IH|path k Hk IH|req k Hk IH|rest Hr IH];
    intros w Hs; simpl.
  - now split.
  - now apply IH.
  - now apply IH.
  - now apply IH.
  - split; [|exact Hs]. destruct Hs as [_ Hf]. now rewrite Hf.
  - split; [|exact Hs]. destruct Hs as [Hn _]. rewrite Hn. apply Hk.
  - now split.
Qed.

Lemma run_task_yields {A} (w0 : World) (P : A -> Prop) (t : Task A) :
  yields w0 P t ->
  forall w, same_surroundings w0 w ->
    exists a, fst (run_task t w) = Return a /\ P a /\
              same_surroundings w0 (snd (run_task t w)).
Proof.
  induction 1 as [a Ha|k Hk IH|c rest Hr IH|e rest Hr IH|path k Hk IH|req k Hk IH|rest Hr IH];
    intros w Hs; simpl.
  - now exists a.
  - now apply IH.
  - now apply IH.
  - now apply IH.
  - destruct Hs as [Hn Hf]. rewrite Hf. apply IH. now split.
  - destruct Hs as [Hn Hf]. rewrite Hn. apply IH. now split.
  - now apply IH.
Qed.

Lemma settle_yields {A} (w0 : World) (P : A -> Prop) (p : Pending A) (w : World) :
  pending_yields w0 P p -> same_surroundings w0 w ->
  exists a, fst (settle p w) = Return a /\ P a /\ same_surroundings w0 (snd (settle p w)).
Proof.
  destruct p as [[a|e]|took rest]; simpl; intros Hp Hs.
  - now exists a.
  - destruct Hp.
  - now apply (run_task_yields w0 P rest Hp).
Qed.

(** Two tasks that yield, awaited together: whatever the schedule, the whole
    resolves with what the two yield. *)
Lemma Promise_all_yields {A B} (w0 : World) (P : A -> Prop) (Q : B -> Prop)
    (schedule : list bool) :
  forall (a : Pending A) (b : Pending B) (w : World),
    pending_yields w0 P a -> pending_yields w0 Q b -> same_surroundings w0 w ->
    exists x y, fst (Promise_all schedule a b w) = Return (x, y) /\ P x /\ Q y.
Proof.
  induction schedule as [|turn schedule IH]; intros a b w Ha Hb Hs.
  - destruct a as [[x|e]|ta ra], b as [[y|e']|tb rb]; simpl in Ha, Hb |- *;
      try contradiction.
    + now exists x, y.
    + destruct (settle_yields w0 Q (Waiting tb rb) w Hb Hs) as (y & Hy & HQ & _).
      simpl in Hy. destruct (run_task rb (tick tb w)) as [r w']. simpl in Hy. subst r.
      now exists x, y.
    + destruct (settle_yields w0 P (Waiting ta ra) w Ha Hs) as (x & Hx & HP & _).
      simpl in Hx. destruct (run_task ra (tick ta w)) as [r w']. simpl in Hx. subst r.
      now exists x, y.
    + destruct (settle_yields w0 P (Waiting ta ra) w Ha Hs) as (x & Hx & HP & Hs').
      simpl in Hx, Hs'. destruct (run_task ra (tick ta w)) as [r w']. simpl in Hx, Hs'.
      subst r.
      destruct (settle_yields w0 Q (Waiting tb rb) w' Hb Hs') as (y & Hy & HQ & _).
      simpl in Hy. destruct (run_task rb (tick tb w')) as [r w'']. simpl in Hy. subst r.
      now exists x, y.
  - destruct a as [[x|e]|ta ra], b as [[y|e']|tb rb]; simpl in Ha, Hb |- *;
      try contradiction.
    + now exists x, y.
    + destruct (resume_yields w0 Q rb Hb (tick tb w) Hs) as [Hp Hs'].
      destruct (resume rb (tick tb w)) as [b' w']. now apply IH.
    + destruct (resume_yields w0 P ra Ha (tick ta w) Hs) as [Hp Hs'].
      destruct (resume ra (tick ta w)) as [a' w']. now apply IH.
    + destruct turn.
      * destruct (resume_yields w0 P ra Ha (tick ta w) Hs) as [Hp Hs'].
        destruct (resume ra (tick ta w)) as [a' w']. now apply IH.
      * destruct (resume_yields w0 Q rb Hb (tick tb w) Hs) as [Hp Hs'].
        destruct (resume rb (tick tb w)) as [b' w']. now apply IH.
Qed.

Lemma readRefreshToken_task_yields (w0 : World) (refreshToken : string) :
  firebase_tools w0 = Text (Json {| tokens := Some {| refresh_token := Some refreshToken |} |}) ->
  truthy_str refreshToken = true ->
  yields w0 (eq refreshToken) readRefreshToken_task.
Proof.
  intros Hf Ht. unfold readRefreshToken_task.
  apply yields_Look. intros w _. apply yields_AwaitReadFile.
  rewrite Hf. cbn. rewrite Ht. now apply yields_Settled.
Qed.

Lemma getAccessToken_task_yields (w0 : World) :
  grants w0 -> yields w0 (fun _ => True) getAccessToken_task.
Proof.
  intros (refreshToken & Hf & Ht & Hgrant).
  assert (Hcold : yields w0 (fun _ : string => True)
                    (and_then readRefreshToken_task refreshAccessToken_task)).
  { apply (yields_and_then w0 (eq refreshToken));
      [now apply readRefreshToken_task_yields|].
    intros rt <-. unfold refreshAccessToken_task.
    apply yields_AwaitFetch. intros n.
    destruct (Hgrant n) as (response & tokenData & accessToken & Hn & Hok & Hb & Ha & Hta).
    rewrite Hn, Hok. cbn [negb]. apply yields_AwaitBody.
    rewrite Hb, Ha, Hta.
    apply yields_SetCachedAccessToken, yields_Look. intros w _.
    now apply yields_SetTokenExpiresAt, yields_Settled. }
  unfold getAccessToken_task. apply yields_Look. intros w _.
  destruct (cachedAccessToken w) as [cached|]; [|exact Hcold].
  destruct (truthy_str cached && before (clock w) (tokenExpiresAt w));
    [now apply yields_Settled | exact Hcold].
Qed.

Lemma firebaseApiGet_task_yields (w0 : World) (path : string) (data : Payload) :
  grants w0 -> serves w0 path data ->
  yields w0 (eq (Some data)) (firebaseApiGet_task path).
Proof.
  intros Hg Hs. unfold firebaseApiGet_task.
  apply (yields_and_then w0 (fun _ => True)); [now apply getAccessToken_task_yields|].
  intros accessToken _. apply yields_AwaitFetch. intros n.
  destruct (Hs n accessToken) as (response & Hn & Hok & Hb).
  unfold management_request in Hn. rewrite Hn, Hok. cbn [negb].
  apply yields_AwaitBody. rewrite Hb. now apply yields_Settled.
Qed.

(** With a token to be had and both listings served, [listApps] returns the
    apps of the two listings, Android first, under every schedule. *)
Lemma listApps_served (projectNumber : string) (schedule : list bool) (w : World)
    (androidResponse iosResponse : Payload) :
  grants w ->
  serves w (android_path projectNumber) androidResponse ->
  serves w (ios_path projectNumber) iosResponse ->
  fst (listApps projectNumber schedule w) = Return (listed_apps androidResponse iosResponse).
Proof.
  intros Hg Ha Hi. unfold listApps, bind.
  fold (android_path projectNumber). fold (ios_path projectNumber).
  destruct (resume_yields w (eq (Some androidResponse)) _
              (firebaseApiGet_task_yields w _ _ Hg Ha) w (same_surroundings_refl w))
    as [Hpa Hs1].
  destruct (resume (firebaseApiGet_task (android_path projectNumber)) w) as [android w1].
  cbn [fst snd] in Hpa, Hs1.
  destruct (resume_yields w (eq (Some iosResponse)) _
              (firebaseApiGet_task_yields w _ _ Hg Hi) w1 Hs1) as [Hpi Hs2].
  destruct (resume (firebaseApiGet_task (ios_path projectNumber)) w1) as [ios w2].
  cbn [fst snd] in Hpi, Hs2.
  destruct (Promise_all_yields w _ _ schedule android ios w2 Hpa Hpi Hs2)
    as (x & y & Hall & <- & <-).
  destruct (Promise_all schedule android ios w2) as [r w3]. cbn [fst] in Hall. subst r.
  reflexivity.
Qed.


Lemma grants_after (ev : Event) (w : World) : grants w -> grants (after ev w).
Proof. intros H. exact H. Qed.

Lemma serves_after (ev : Event) (w : World) (path : string) (data : Payload) :
  serves w path data -> serves (after ev w) path data.
Proof. intros H. exact H. Qed.

Lemma appId_listed_apps (androidResponse iosResponse : Payload) :
  appId <$> listed_apps androidResponse iosResponse =
    listed_ids androidResponse ++ listed_ids iosResponse.
Proof.
  unfold listed_apps, listed_ids. cbv zeta.
  rewrite fmap_app, <- !list_fmap_compose. reflexivity.
Qed.

End TasksScheduled.

Section ResolutionRuns.

Import Auth Config Project.

Variable NumberToString : jsnum -> string.

Lemma readFirebaseRc_run (w : World) :
  readFirebaseRc w =
    (match firebaserc w with
     | Absent => Return None
     | Unreadable msg => Throw (Error ("Failed to read .firebaserc: " +:+ msg))
     | Text (Json rc) =>
         Return (match projects rc with Some p => rc_default p | None => None end)
     | Text _ => Throw (Error firebaserc_parse_message)
     end, after (EvReadFile (rc_path w)) w).
Proof.
  unfold readFirebaseRc, readFile, bind, after, rc_path; simpl.
  now destruct (firebaserc w) as [|msg|[| |c]].
Qed.

Lemma readConfig_run (w : World) :
  readable (local_config w) = true ->
  readConfig w =
    (Return (match local_config w with
             | Text (Json text) => Some (parse_config text)
             | _ => None
             end), after (EvReadFile (local_path w)) w).
Proof.
  unfold readConfig, read_config_file, getLocalConfigPath, readFile, bind, after,
    local_path; simpl.
  now destruct (local_config w) as [|msg|[| |c]].
Qed.

(** [config?.project] and [config?.app] find what the file stores at the key:
    something for a record that has the key, nothing otherwise. *)
Lemma property_stored (f : file ConfigJson) (key : string) :
  array_index key = None -> key <> "length"%string ->
  property (match f with
            | Text (Json text) => Some (parse_config text)
            | _ => None
            end) key = stored f key.
Proof.
  intros Hi Hl. unfold stored.
  destruct f as [|msg|[| |[c|items|b|m e|s]]]; simpl;
    try (now rewrite lookup_empty);
    try (rewrite bool_decide_eq_false_2 by assumption; rewrite Hi;
         now rewrite lookup_empty).
  now rewrite lookup_fmap.
Qed.

(** With the files it consults readable, [resolveProject] stops with the
    "No project specified" error when the precedence finds no id, and is the
    exchange of the id the precedence finds otherwise. *)
Lemma resolveProject_run (flag : option string) (w : World) :
  (given (VStr <$> flag) = None -> rc_readable (firebaserc w) = true) ->
  (given (VStr <$> flag) = None ->
   given (VStr <$> rc_default_project (firebaserc w)) = None ->
   readable (local_config w) = true) ->
  resolveProject NumberToString flag w =
    match preferred_project flag w with
    | None => (Throw (Error no_project_message), consulted flag w)
    | Some v => exchange (ToString NumberToString v) (consulted flag w)
    end.
Proof.
  intros Hrc Hlc. unfold resolveProject, preferred_project, consulted, bind.
  destruct (given (VStr <$> flag)) as [v|]; [reflexivity|].
  specialize (Hrc eq_refl). specialize (Hlc eq_refl).
  rewrite readFirebaseRc_run.
  assert (Hread : match firebaserc w with
                  | Absent => Return None
                  | Unreadable msg => Throw (Error ("Failed to read .firebaserc: " +:+ msg))
                  | Text (Json rc) =>
                      Return (match projects rc with Some p => rc_default p | None => None end)
                  | Text _ => Throw (Error firebaserc_parse_message)
                  end = Return (rc_default_project (firebaserc w))).
  { destruct (firebaserc w) as [|msg|[| |rc]]; try discriminate; reflexivity. }
  rewrite Hread. cbv beta iota delta [ret].
  destruct (given (VStr <$> rc_default_project (firebaserc w))) as [v|]; [reflexivity|].
  specialize (Hlc eq_refl).
  rewrite readConfig_run by exact Hlc.
  cbv beta iota delta [ret].
  change (local_config (after (EvReadFile (rc_path w)) w)) with (local_config w).
  rewrite property_stored by (vm_compute; congruence).
  destruct (given (stored (local_config w) "project")) as [v|]; reflexivity.
Qed.






End ResolutionRuns.

Section ProjectPrecedence.

Import Auth Config Project.

Variable NumberToString : jsnum -> string.


End ProjectPrecedence.

(** The resolution scenario of the spec: [proj-A] by flag, [proj-B] without
    the flag, [proj-C] without flag and [.firebaserc], an error without all. *)
Example resolveProject_scenario :
  fst (Project.resolveProject no_numbers (Some "proj-A"%string) (resolution_world rc_B local_C))
    = Return (identity_of (project_payload "proj-A" "1001")) /\
  fst (Project.resolveProject no_numbers None (resolution_world rc_B local_C))
    = Return (identity_of (project_payload "proj-B" "1002")) /\
  fst (Project.resolveProject no_numbers None (resolution_world Absent local_C))
    = Return (identity_of (project_payload "proj-C" "1003")) /\
  fst (Project.resolveProject no_numbers None (resolution_world Absent Absent))
    = Throw (Error no_project_message).
Proof. vm_compute. repeat split. Qed.


Section AppPrecedence.

Import Auth Config Project.

Variable NumberToString : jsnum -> string.

(** How [resolveApp] goes once the flag is out of the way and the local
    config file has been read. *)
Lemma resolveApp_run (flag projectNumber : option string) (schedule : list bool)
    (w : World) :
  given (VStr <$> flag) = None ->
  readable (local_config w) = true ->
  let w1 := after (EvReadFile (local_path w)) w in
  resolveApp NumberToString flag projectNumber schedule w =
    match given (stored (local_config w) "app") with
    | Some v => (Return v, w1)
    | None =>
        match given (VStr <$> projectNumber) with
        | None => (Throw (Error could_not_determine_app_message), w1)
        | Some pn =>
            match listApps (ToString NumberToString pn) schedule w1 with
            | (Return [], w2) =>
                (Throw (Error (no_apps_message (ToString NumberToString pn))), w2)
            | (Return (selectedApp :: _), w2) => (Return (VStr (appId selectedApp)), w2)
            | (Throw e, w2) => (Throw e, w2)
            end
        end
    end.
Proof.
  intros Hflag Hlc w1. unfold resolveApp. rewrite Hflag. unfold bind at 1.
  rewrite readConfig_run by exact Hlc.
  rewrite property_stored by (vm_compute; congruence).
  destruct (given (stored (local_config w) "app")) as [v|]; [reflexivity|].
  destruct (given (VStr <$> projectNumber)) as [pn|]; [|reflexivity].
  unfold bind. fold w1.
  destruct (listApps (ToString NumberToString pn) schedule w1) as [[[|a l]|e] w2];
    reflexivity.
Qed.


End AppPrecedence.

(** App resolution on the scenario machine: the flag wins over the config,
    the config over the listing; project 1003 lists one Android app, project
    1002 none. *)
Example resolveApp_scenario :
  fst (Project.resolveApp no_numbers (Some "1:1003:android:bbb"%string) (Some "1003"%string) []
         (resolution_world Absent local_app))
    = Return (VStr "1:1003:android:bbb") /\
  fst (Project.resolveApp no_numbers None (Some "1003"%string) []
         (resolution_world Absent local_app))
    = Return (VStr "1:1003:ios:ccc") /\
  fst (Project.resolveApp no_numbers None (Some "1003"%string) [false; true; false]
         (resolution_world Absent Absent))
    = Return (VStr "1:1003:android:aaa") /\
  fst (Project.resolveApp no_numbers None (Some "1002"%string) []
         (resolution_world Absent Absent))
    = Throw (Error (no_apps_message "1002")) /\
  fst (Project.resolveApp no_numbers None None [] (resolution_world Absent Absent))
    = Throw (Error could_not_determine_app_message).
Proof. vm_compute. repeat split. Qed.

(** The scenario network grants tokens and serves the listings of project
    1003: one Android app, no iOS app. *)
Lemma scenario_grants (rc : file FirebaseRc) (lc : file ConfigJson) :
  grants (resolution_world rc lc).
Proof.
  exists "1//refresh"%string. split; [reflexivity|]. split; [reflexivity|].
  intros n. eexists _, _, _. repeat split; reflexivity.
Qed.

Lemma scenario_serves_android (rc : file FirebaseRc) (lc : file ConfigJson) :
  serves (resolution_world rc lc) (android_path "1003")
    {| access_token := None; expires_in := None; error := None;
       error_description := None; p_projectId := None; p_projectNumber := None;
       p_displayName := None; p_name := None;
       apps := Some [ {| app_appId := "1:1003:android:aaa";
                         app_displayName := Some "Demo"%string;
                         app_packageName := Some "com.example.demo"%string;
                         app_bundleId := None |} ] |}.
Proof. intros n accessToken. eexists. repeat split; reflexivity. Qed.

Lemma scenario_serves_ios (rc : file FirebaseRc) (lc : file ConfigJson) :
  serves (resolution_world rc lc) (ios_path "1003") Scenario.no_payload.
Proof. intros n accessToken. eexists. repeat split; reflexivity. Qed.


(** ** Display helpers *)

Section Truncate.

Import Formatter.

Lemma string_length_take (n : nat) (s : string) :
  String.length (take n s) = Nat.min n (String.length s).
Proof.
  revert s. induction n as [|n IH]; intros [|c s]; simpl; try reflexivity.
  now rewrite IH.
Qed.

Lemma take_all (n : nat) (s : string) :
  (String.length s <= n)%nat -> take n s = s.
Proof.
  revert s. induction n as [|n IH]; intros [|c s] H; simpl in *; try reflexivity.
  - lia.
  - f_equal. apply IH. lia.
Qed.

Lemma string_length_append (a b : string) :
  String.length (a +:+ b) = (String.length a + String.length b)%nat.
Proof. induction a as [|c a IH]; simpl; [reflexivity | now rewrite IH]. Qed.

(** [truncate] with a limit that is not negative never returns more than
    [maxLen] characters; a string within the limit is returned as it is, and
    a longer one comes back with exactly [maxLen] characters. *)
Theorem truncate_length (str : string) (maxLen : Z) :
  0 <= maxLen ->
  let len := Z.of_nat (String.length str) in
  (len <= maxLen -> truncate str maxLen = str) /\
  (maxLen < len -> Z.of_nat (String.length (truncate str maxLen)) = maxLen) /\
  Z.of_nat (String.length (truncate str maxLen)) <= maxLen.
Proof.
  intros Hpos len.
  assert (Hcase : len <= maxLen \/ maxLen < len) by lia.
  assert (H1 : len <= maxLen -> truncate str maxLen = str).
  { intros H. unfold truncate. fold len.
    destruct (maxLen <? 4); now rewrite (proj2 (Z.leb_le len maxLen) H). }
  assert (H2 : maxLen < len -> Z.of_nat (String.length (truncate str maxLen)) = maxLen).
  { intros H. unfold truncate, slice0. fold len.
    rewrite (proj2 (Z.leb_gt len maxLen) H).
    destruct (maxLen <? 4) eqn:H4.
    - rewrite (proj2 (Z.ltb_ge maxLen 0) Hpos), string_length_take. subst len. lia.
    - apply Z.ltb_ge in H4.
      rewrite (proj2 (Z.ltb_ge (maxLen - 3) 0)) by lia.
      rewrite string_length_append, string_length_take. simpl. subst len. lia. }
  repeat split; try assumption.
  destruct Hcase as [H|H]; [rewrite (H1 H); subst len | rewrite (H2 H)]; lia.
Qed.

Lemma truncate_length_witness :
  Z.of_nat (String.length (truncate "java.lang.NullPointerException" 12)) = 12.
Proof.
  refine (proj1 (proj2 (truncate_length "java.lang.NullPointerException" 12 _)) _).
  - lia.
  - vm_compute. reflexivity.
Defined.

(** With a negative limit [truncate] does not return an empty string: it cuts
    [-maxLen] characters off the end of any string longer than that. *)
Theorem truncate_negative_limit (str : string) (maxLen : Z) :
  maxLen < 0 ->
  truncate str maxLen = take (Z.to_nat (Z.of_nat (String.length str) + maxLen)) str /\
  Z.of_nat (String.length (truncate str maxLen)) =
    Z.max (Z.of_nat (String.length str) + maxLen) 0.
Proof.
  intros Hneg.
  assert (H : truncate str maxLen =
              take (Z.to_nat (Z.of_nat (String.length str) + maxLen)) str).
  { unfold truncate, slice0.
    rewrite (proj2 (Z.ltb_lt maxLen 4)) by lia.
    rewrite (proj2 (Z.leb_gt (Z.of_nat (String.length str)) maxLen)) by lia.
    rewrite (proj2 (Z.ltb_lt maxLen 0)) by lia.
    f_equal. lia. }
  split; [exact H|]. rewrite H, string_length_take. lia.
Qed.

Lemma truncate_negative_limit_witness :
  truncate "crash" (-1) = "cras"%string.
Proof.
  rewrite (proj1 (truncate_negative_limit "crash" (-1) ltac:(lia))).
  vm_compute. reflexivity.
Defined.

End Truncate.

Section TimeAgo.

Import DateUtil.

Ltac div_lia := Z.to_euclidean_division_equations; lia.

(** A date in the future, or less than a minute old, reads "just now". *)
Theorem timeAgo_just_now (now t : Z) :
  now - t < 60 * 1000 -> timeAgo now (Some t) = "just now"%string.
Proof.
  intros H. unfold timeAgo.
  destruct (now - t <? 0) eqn:Hneg; [reflexivity|].
  apply Z.ltb_ge in Hneg.
  rewrite (proj2 (Z.ltb_lt ((now - t) / 1000) 60)); [reflexivity|].
  div_lia.
Qed.

Lemma timeAgo_just_now_witness :
  timeAgo 1700000000000 (Some 1700000360000) = "just now"%string.
Proof. apply timeAgo_just_now. lia. Defined.

(** From one hour up to a day the label counts the whole hours elapsed. *)
Theorem timeAgo_hours (now t : Z) :
  60 * 60 * 1000 <= now - t < day_ms ->
  timeAgo now (Some t) = (pretty ((now - t) / (60 * 60 * 1000)) +:+ "h ago")%string.
Proof.
  unfold day_ms. intros H. unfold timeAgo.
  rewrite (proj2 (Z.ltb_ge (now - t) 0)) by lia.
  assert (Hh : (now - t) / 1000 / 60 / 60 = (now - t) / (60 * 60 * 1000)) by div_lia.
  rewrite (proj2 (Z.ltb_ge ((now - t) / 1000) 60)) by div_lia.
  rewrite (proj2 (Z.ltb_ge ((now - t) / 1000 / 60) 60)) by div_lia.
  rewrite (proj2 (Z.ltb_lt ((now - t) / 1000 / 60 / 60) 24)) by div_lia.
  now rewrite Hh.
Qed.

Lemma timeAgo_hours_witness :
  timeAgo 1700000000000 (Some 1699989000000) = "3h ago"%string.
Proof.
  rewrite (timeAgo_hours 1700000000000 1699989000000).
  - vm_compute. reflexivity.
  - unfold day_ms. lia.
Defined.

(** A date between 360 and 364 days old falls between the month labels and
    the year labels: it reads "0 year ago". *)
Theorem timeAgo_zero_year (now t : Z) :
  360 * day_ms <= now - t < 365 * day_ms ->
  timeAgo now (Some t) = "0 year ago"%string.
Proof.
  unfold day_ms. intros H. unfold timeAgo.
  rewrite (proj2 (Z.ltb_ge (now - t) 0)) by lia.
  set (days := (now - t) / 1000 / 60 / 60 / 24).
  assert (Hd : 360 <= days <= 364) by (subst days; div_lia).
  rewrite (proj2 (Z.ltb_ge ((now - t) / 1000) 60)) by div_lia.
  rewrite (proj2 (Z.ltb_ge ((now - t) / 1000 / 60) 60)) by div_lia.
  rewrite (proj2 (Z.ltb_ge ((now - t) / 1000 / 60 / 60) 24)) by div_lia.
  rewrite (proj2 (Z.ltb_ge days 7)) by lia.
  rewrite (proj2 (Z.ltb_ge (days / 7) 5)) by div_lia.
  rewrite (proj2 (Z.ltb_ge (days / 30) 12)) by div_lia.
  assert (Hy : days / 365 = 0) by div_lia.
  rewrite Hy. reflexivity.
Qed.

Lemma timeAgo_zero_year_witness :
  timeAgo 1700000000000 (Some (1700000000000 - 362 * day_ms)) = "0 year ago"%string.
Proof. apply timeAgo_zero_year. unfold day_ms. lia. Defined.

End TimeAgo.

(** ** More on the token cache *)

Section TokenCacheMore.

Import Auth.

(** [readRefreshToken] returns a token exactly when the sibling tool's file
    parses to an object whose [tokens.refresh_token] is a non-empty string,
    and then it returns that string. *)
Theorem readRefreshToken_returns_iff (w : World) (t : string) :
  fst (readRefreshToken w) = Return t <->
  exists c tk, firebase_tools w = Text (Json c) /\ tokens c = Some tk /\
               refresh_token tk = Some t /\ truthy_str t = true.
Proof.
  unfold readRefreshToken, getFirebaseConfigPath, readFile, bind; simpl.
  destruct (firebase_tools w) as [|msg|[| |c]] eqn:Hf; simpl.
  1-4: split; [discriminate | intros (c' & tk & H & _); discriminate].
  destruct c as [[[[t'|]]|]]; simpl.
  - destruct (truthy_str t') eqn:Ht; simpl.
    + split.
      * intros [= <-]. eexists _, _. repeat split. exact Ht.
      * intros (c' & tk & [= <-] & [= <-] & [= <-] & _). reflexivity.
    + split; [discriminate|].
      intros (c' & tk & [= <-] & [= <-] & [= <-] & Ht'). congruence.
  - split; [discriminate | intros (c' & tk & [= <-] & [= <-] & H & _); discriminate].
  - split; [discriminate | intros (c' & tk & [= <-] & H & _); discriminate].
Qed.

Lemma readRefreshToken_returns_iff_witness :
  fst (readRefreshToken Scenario.fresh) = Return "1//refresh"%string.
Proof.
  apply (proj2 (readRefreshToken_returns_iff Scenario.fresh "1//refresh")).
  eexists _, _. repeat split.
Defined.

(** A reply of the token endpoint that is not 2xx never yields a token and
    never touches the cache, whatever its body holds; when the body says
    [invalid_grant] the message asks for a new login. *)
Theorem refreshAccessToken_rejects_non_2xx
    (rt : string) (w : World) (response : Response) :
  next_reply w (token_request rt) = Respond response ->
  ok response = false ->
  exists e,
    refreshAccessToken rt w = (Throw e, after (EvFetch (token_request rt)) w) /\
    cache (after (EvFetch (token_request rt)) w) = cache w /\
    (forall b, body response = Json b -> error b = Some "invalid_grant"%string ->
       message e =
         "Firebase token is invalid or expired. Run `firebase login` again to re-authenticate."%string) /\
    (body response = Malformed \/ body response = JsonNull ->
       message e = ("Token refresh failed with status " +:+ pretty (status response))%string).
Proof.
  intros Hr Hok. unfold refreshAccessToken, bind, fetch.
  fold (next_reply w (token_request rt)). rewrite Hr.
  change (io (EvFetch (token_request rt)) w)
    with (Return tt, after (EvFetch (token_request rt)) w).
  cbv beta iota. rewrite Hok. simpl negb. cbv iota.
  eexists. split; [reflexivity|]. split; [reflexivity|]. split.
  - intros b -> Hb. simpl. now rewrite Hb.
  - intros [-> | ->]; reflexivity.
Qed.

Lemma refreshAccessToken_rejects_non_2xx_witness :
  exists e,
    fst (refreshAccessToken "1//refresh"
           (Scenario.machine Scenario.logged_in Absent Absent Absent 0
              (fun _ _ => Scenario.respond 400 ""
                 (Json {| access_token := Some "ya29.stray"%string; expires_in := Some 3600;
                          error := Some "invalid_grant"%string; error_description := None;
                          p_projectId := None; p_projectNumber := None;
                          p_displayName := None; p_name := None; apps := None |}))
              None (Some 0))) = Throw e /\
    message e =
      "Firebase token is invalid or expired. Run `firebase login` again to re-authenticate."%string.
Proof.
  edestruct (refreshAccessToken_rejects_non_2xx "1//refresh"
               (Scenario.machine Scenario.logged_in Absent Absent Absent 0
                  (fun _ _ => Scenario.respond 400 ""
                     (Json {| access_token := Some "ya29.stray"%string; expires_in := Some 3600;
                              error := Some "invalid_grant"%string; error_description := None;
                              p_projectId := None; p_projectNumber := None;
                              p_displayName := None; p_name := None; apps := None |}))
                  None (Some 0)))
    as (e & He & _ & Hm & _); [reflexivity | reflexivity |].
  exists e. split; [now rewrite He|].
  eapply Hm; reflexivity.
Defined.

(** A token that the server grants for at most 60 seconds, or without saying
    for how long, is cached but never served: every later call refreshes. *)
Theorem refreshAccessToken_short_ttl_never_served
    (rt t : string) (w w' w2 : World) (response : Response) (data : Payload) :
  refreshAccessToken rt w = (Return t, w') ->
  next_reply w (token_request rt) = Respond response ->
  body response = Json data ->
  (forall ttl, expires_in data = Some ttl -> ttl <= 60) ->
  cache w2 = cache w' ->
  clock w' <= clock w2 ->
  cache_valid w2 = false.
Proof.
  intros Hrun Hr Hb Hshort Hcache Hclock.
  destruct (refreshAccessToken_cases rt w)
    as [(e & He)|(resp & data' & t' & Hn & _ & Hb' & _ & _ & He)]; rewrite He in Hrun.
  { discriminate. }
  rewrite Hr in Hn. injection Hn as <-. rewrite Hb in Hb'. injection Hb' as <-.
  injection Hrun as <- <-.
  injection Hcache as Hc He2. simpl in Hc, He2, Hclock.
  unfold cache_valid. rewrite Hc, He2. unfold before.
  destruct (expires_in data) as [ttl|] eqn:Httl; simpl.
  - specialize (Hshort ttl eq_refl).
    rewrite (proj2 (Z.ltb_ge _ _)); [apply andb_false_r|]. lia.
  - apply andb_false_r.
Qed.

End TokenCacheMore.

Section TokenCacheFrame.

Import Auth.

Lemma refreshAccessToken_short_ttl_never_served_witness :
  cache_valid (snd (refreshAccessToken "1//refresh" short_lived_world)) = false.
Proof.
  refine (refreshAccessToken_short_ttl_never_served "1//refresh" "ya29.brief"
            short_lived_world (snd (refreshAccessToken "1//refresh" short_lived_world))
            (snd (refreshAccessToken "1//refresh" short_lived_world))
            {| status := 200; statusText := ""; text := "";
               body := Json {| access_token := Some "ya29.brief"%string;
                               expires_in := Some 30;
                               error := None; error_description := None;
                               p_projectId := None; p_projectNumber := None;
                               p_displayName := None; p_name := None; apps := None |} |}
            _ _ _ _ _ _ _).
  - reflexivity.
  - reflexivity.
  - reflexivity.
  - intros ttl [= <-]. lia.
  - reflexivity.
  - lia.
Defined.

(** [getAccessToken] only reads: whatever happens, the four files are as
    before, no file is written and no directory made, events are only added
    to the log, and the clock does not go back. *)
Theorem getAccessToken_reads_only (w : World) :
  let w' := snd (getAccessToken w) in
  firebase_tools w' = firebase_tools w /\ firebaserc w' = firebaserc w /\
  local_config w' = local_config w /\ global_config w' = global_config w /\
  writes w' = writes w /\
  (exists events, trace w' = trace w ++ events) /\
  clock w <= clock w'.
Proof.
  intros w'. subst w'.
  destruct (getAccessToken_cases w)
    as [(_ & t & _ & _ & Hg)|[(_ & e & _ & Hg)|(_ & rt & _ & Hg)]]; rewrite Hg.
  - simpl. repeat split; try reflexivity; try lia.
    exists []. now rewrite app_nil_r.
  - simpl. repeat split; try reflexivity; try lia.
    + unfold writes; simpl. rewrite omap_app. simpl. apply app_nil_r.
    + eexists. reflexivity.
  - destruct (refreshAccessToken_cases rt (after (EvReadFile (firebase_config_path w)) w))
      as [(e & He)|(resp & data & t & _ & _ & _ & _ & _ & He)]; rewrite He; simpl;
      repeat split; try reflexivity; try lia.
    + unfold writes; simpl. rewrite !omap_app. simpl. now rewrite !app_nil_r.
    + eexists. rewrite <- app_assoc. reflexivity.
    + unfold writes; simpl. rewrite !omap_app. simpl. now rewrite !app_nil_r.
    + eexists. rewrite <- app_assoc. reflexivity.
Qed.

End TokenCacheFrame.

(** ** More on the config store *)

Section ConfigWritesCompose.

Import Config.

(** What a write leaves at the key itself: the value as JSON holds it, or
    nothing when the key is [__proto__] and the record had no such property. *)
Lemma written_at_key (key : string) (value : jsval) (c : gmap string json) :
  written key value c !! key =
    if bool_decide (key = "__proto__"%string) && bool_decide (c !! key = None)
    then None else Some (to_json value).
Proof.
  unfold written, set_property.
  assert (Hnone : (of_json <$> c) !! key = None <-> c !! key = None).
  { rewrite lookup_fmap. destruct (c !! key); simpl; split; congruence. }
  destruct (bool_decide (key = "__proto__"%string)) eqn:Hk; simpl.
  - repeat case_bool_decide; try (exfalso; tauto);
      try (rewrite lookup_fmap, lookup_insert_eq; reflexivity).
    all: rewrite lookup_fmap;
      match goal with H : _ !! _ = None |- _ => now rewrite H end.
  - rewrite lookup_fmap, lookup_insert_eq. reflexivity.
Qed.

(** What a write leaves at another key: the old entry as JSON holds what was
    read from it. *)
Lemma written_at_other (key k : string) (value : jsval) (c : gmap string json) :
  k <> key ->
  written key value c !! k = (fun j => to_json (of_json j)) <$> c !! k.
Proof.
  intros Hne. unfold written, set_property.
  case_match.
  - rewrite !lookup_fmap. now destruct (c !! k).
  - rewrite lookup_fmap, lookup_insert_ne by congruence.
    rewrite lookup_fmap. now destruct (c !! k).
Qed.

Lemma written_twice (key : string) (v1 v2 : jsval) (c : gmap string json) :
  written key v2 (written key v1 c) = written key v2 c.
Proof.
  apply map_eq. intros k. destruct (decide (k = key)) as [->|Hne].
  - rewrite !written_at_key.
    destruct (bool_decide (key = "__proto__"%string)); simpl; [|reflexivity].
    destruct (c !! key); simpl; reflexivity.
  - rewrite !written_at_other by assumption.
    destruct (c !! k) as [j|]; [|reflexivity]. cbn. f_equal.
    apply (to_json_roundtrip (of_json j)).
Qed.

Lemma written_commute (k1 k2 : string) (v1 v2 : jsval) (c : gmap string json) :
  k1 <> k2 ->
  written k1 v1 (written k2 v2 c) = written k2 v2 (written k1 v1 c).
Proof.
  assert (Hside : forall ka kb va vb, ka <> kb ->
            written ka va (written kb vb c) !! ka =
            written kb vb (written ka va c) !! ka).
  { intros ka kb va vb Hne.
    rewrite (written_at_other kb ka vb (written ka va c)) by assumption.
    rewrite !written_at_key.
    rewrite (written_at_other kb ka vb c) by assumption.
    destruct (bool_decide (ka = "__proto__"%string)); simpl.
    - destruct (c !! ka); simpl; [|reflexivity].
      f_equal. symmetry. apply to_json_roundtrip.
    - f_equal. symmetry. apply to_json_roundtrip. }
  intros Hne. apply map_eq. intros k.
  destruct (decide (k = k1)) as [->|H1]; [|destruct (decide (k = k2)) as [->|H2]].
  - now apply Hside.
  - symmetry. apply Hside. congruence.
  - now rewrite !written_at_other.
Qed.

(** The file a successful write to a record leaves. *)
Lemma writeConfig_success (key : string) (value : jsval) (w w' : World) :
  holds_record (local_config w) = true ->
  writeConfig key value w = (Return tt, w') ->
  local_config w' = Text (Json (RecordJson (written key value (content (local_config w))))) /\
  global_config w' = global_config w /\ cwd w' = cwd w /\ homedir w' = homedir w /\
  write_error w' = write_error w /\ mkdir_error w' = mkdir_error w /\
  firebaserc w' = firebaserc w.
Proof.
  intros Hrec H.
  destruct (writeConfig_cases key value w Hrec) as [(e & He)|He];
    rewrite He in H; try discriminate.
  injection H as <-. repeat split.
Qed.

(** Two successful writes of the same key to a local file that held a record
    (or was missing) leave the file a single write of the second value would
    leave: the last write wins and the first leaves no trace. *)
Theorem writeConfig_last_write_wins (key : string) (v1 v2 : jsval) (w w1 w2 : World) :
  holds_record (local_config w) = true ->
  writeConfig key v1 w = (Return tt, w1) ->
  writeConfig key v2 w1 = (Return tt, w2) ->
  local_config w2 = Text (Json (RecordJson (written key v2 (content (local_config w))))).
Proof.
  intros Hrec H1 H2.
  destruct (writeConfig_success key v1 w w1 Hrec H1) as (Hl1 & _).
  assert (Hrec1 : holds_record (local_config w1) = true) by now rewrite Hl1.
  destruct (writeConfig_success key v2 w1 w2 Hrec1 H2) as (Hl2 & _).
  rewrite Hl2, Hl1. cbn [content]. now rewrite written_twice.
Qed.

Lemma writeConfig_last_write_wins_witness :
  local_config
    (snd (writeConfig "defaultType" (VStr "anr")
            (snd (writeConfig "defaultType" (VStr "fatal") Scenario.fresh)))) =
  Text (Json (RecordJson (written "defaultType" (VStr "anr") ∅))).
Proof.
  refine (writeConfig_last_write_wins "defaultType" (VStr "fatal") (VStr "anr")
            Scenario.fresh
            (snd (writeConfig "defaultType" (VStr "fatal") Scenario.fresh))
            (snd (writeConfig "defaultType" (VStr "anr")
                    (snd (writeConfig "defaultType" (VStr "fatal") Scenario.fresh))))
            _ _ _); vm_compute; reflexivity.
Defined.

(** Successful writes of two different keys to a local file that held a
    record (or was missing) leave the same record in either order. *)
Theorem writeConfig_keys_commute
    (k1 k2 : string) (v1 v2 : jsval) (w wa wab wb wba : World) :
  holds_record (local_config w) = true ->
  k1 <> k2 ->
  writeConfig k1 v1 w = (Return tt, wa) -> writeConfig k2 v2 wa = (Return tt, wab) ->
  writeConfig k2 v2 w = (Return tt, wb) -> writeConfig k1 v1 wb = (Return tt, wba) ->
  local_config wab = local_config wba.
Proof.
  intros Hrec Hne Ha Hab Hb Hba.
  destruct (writeConfig_success _ _ _ _ Hrec Ha) as (La & _).
  assert (Hra : holds_record (local_config wa) = true) by now rewrite La.
  destruct (writeConfig_success _ _ _ _ Hra Hab) as (Lab & _).
  destruct (writeConfig_success _ _ _ _ Hrec Hb) as (Lb & _).
  assert (Hrb : holds_record (local_config wb) = true) by now rewrite Lb.
  destruct (writeConfig_success _ _ _ _ Hrb Hba) as (Lba & _).
  rewrite Lab, Lba, La, Lb. cbn [content]. do 3 f_equal.
  symmetry. now apply written_commute.
Qed.

Lemma writeConfig_keys_commute_witness :
  local_config
    (snd (writeConfig "app" (VStr "1:1:ios:a")
            (snd (writeConfig "project" (VStr "proj-A") Scenario.fresh)))) =
  local_config
    (snd (writeConfig "project" (VStr "proj-A")
            (snd (writeConfig "app" (VStr "1:1:ios:a") Scenario.fresh)))).
Proof.
  refine (writeConfig_keys_commute "project" "app" (VStr "proj-A") (VStr "1:1:ios:a")
            Scenario.fresh
            (snd (writeConfig "project" (VStr "proj-A") Scenario.fresh))
            (snd (writeConfig "app" (VStr "1:1:ios:a")
                    (snd (writeConfig "project" (VStr "proj-A") Scenario.fresh))))
            (snd (writeConfig "app" (VStr "1:1:ios:a") Scenario.fresh))
            (snd (writeConfig "project" (VStr "proj-A")
                    (snd (writeConfig "app" (VStr "1:1:ios:a") Scenario.fresh))))
            _ _ _ _ _ _).
  - reflexivity.
  - discriminate.
  - vm_compute. reflexivity.
  - vm_compute. reflexivity.
  - vm_compute. reflexivity.
  - vm_compute. reflexivity.
Defined.

(** Why the record is asked for: on a file that holds the array [[1, 2]],
    [length = 0] followed by [0 = "x"] leaves ["x"], the other order the
    empty array, all four writes succeeding. *)
Example writeConfig_on_array_order :
  let w := Scenario.machine Scenario.logged_in Absent
             (Text (Json (ArrayJson [JNumber 1 0; JNumber 2 0]))) Absent
             1700000000000 Scenario.offline None (Some 0) in
  local_config (snd (writeConfig "0" (VStr "x") (snd (writeConfig "length" (VStr "0") w))))
    = Text (Json (ArrayJson [JString "x"])) /\
  local_config (snd (writeConfig "length" (VStr "0") (snd (writeConfig "0" (VStr "x") w))))
    = Text (Json (ArrayJson [])).
Proof. vm_compute. split; reflexivity. Qed.

End ConfigWritesCompose.

Section ConfigFailures.

Import Config.

(** A config file that cannot be read or does not parse is never overwritten:
    the write fails before any file is written, with the file left as it
    was; for a text that does not parse the error names the path.  This holds
    for the local scope and for the global scope. *)
Theorem config_write_keeps_unparsed_file (key : string) (value : jsval) (w : World) :
  (local_config w = Text Malformed \/ (exists msg, local_config w = Unreadable msg) ->
   let r := writeConfig key value w in
   (exists e, fst r = Throw e /\
      (local_config w = Text Malformed ->
       message e = config_parse_message "local" (local_path w))) /\
   local_config (snd r) = local_config w /\ writes (snd r) = writes w) /\
  (global_config w = Text Malformed \/ (exists msg, global_config w = Unreadable msg) ->
   let r := writeGlobalConfig key value w in
   (exists e, fst r = Throw e /\
      (global_config w = Text Malformed -> mkdir_error w (global_dir w) = None ->
       message e = config_parse_message "global" (global_path w))) /\
   global_config (snd r) = global_config w /\ writes (snd r) = writes w).
Proof.
  split.
  - intros H r. subst r.
    unfold writeConfig, readConfig, read_config_file, getLocalConfigPath, readFile, bind.
    simpl.
    destruct H as [H|(msg & H)]; rewrite H; simpl;
      (split; [eexists; split; [reflexivity|]|]).
    + reflexivity.
    + split; [reflexivity|]. unfold writes; simpl. rewrite omap_app. apply app_nil_r.
    + discriminate.
    + split; [reflexivity|]. unfold writes; simpl. rewrite omap_app. apply app_nil_r.
  - intros H r. subst r.
    unfold writeGlobalConfig, readGlobalConfig, read_config_file, getGlobalConfigPath,
      readFile, mkdir, bind, global_dir. simpl.
    destruct (mkdir_error w (join [homedir w; ".config"; "fcc"])) as [m|]; simpl.
    + split; [eexists; split; [reflexivity | discriminate]|].
      split; [reflexivity|]. unfold writes; simpl. rewrite omap_app. apply app_nil_r.
    + destruct H as [H|(msg & H)]; rewrite H; simpl;
        (split; [eexists; split; [reflexivity|]|]).
      * reflexivity.
      * split; [reflexivity|]. unfold writes; simpl. rewrite !omap_app. simpl.
        now rewrite !app_nil_r.
      * discriminate.
      * split; [reflexivity|]. unfold writes; simpl. rewrite !omap_app. simpl.
        now rewrite !app_nil_r.
Qed.

Lemma config_write_keeps_unparsed_file_witness :
  local_config (snd (writeConfig "project" (VStr "proj-A") garbled_local_world)) =
    Text Malformed /\
  writes (snd (writeConfig "project" (VStr "proj-A") garbled_local_world)) = [].
Proof.
  destruct (proj1 (config_write_keeps_unparsed_file "project" (VStr "proj-A")
                     garbled_local_world) (or_introl eq_refl)) as (_ & Hl & Hw).
  split; [exact Hl | exact Hw].
Defined.

(** [fcc config set] and [fcc config set-global] with a value for
    [defaultLimit] that [Number] turns into [NaN] fail at once: nothing is
    read, written or sent, and the world is left exactly as it was. *)
Theorem config_set_invalid_number_no_io (value : string) (w : World) :
  isNaN (StringToNumber value) = true ->
  (exists e, config_set "defaultLimit" value w = (Throw e, w) /\
             contains (message e) value = true) /\
  (exists e, config_set_global "defaultLimit" value w = (Throw e, w) /\
             contains (message e) value = true).
Proof.
  intros H. unfold config_set, config_set_global, coerceConfigValue.
  change (bool_decide (expected_type "defaultLimit" = Some "number"%string)) with true.
  cbv iota. rewrite H.
  split; (eexists; split; [reflexivity|]); simpl message;
    do 6 apply contains_app_l; apply contains_prefix, prefix_app.
Qed.

Lemma config_set_invalid_number_no_io_witness :
  exists e, config_set "defaultLimit" "fifty" Scenario.fresh = (Throw e, Scenario.fresh).
Proof.
  destruct (proj1 (config_set_invalid_number_no_io "fifty" Scenario.fresh
                     ltac:(vm_compute; reflexivity))) as (e & He & _).
  exists e. exact He.
Defined.

End ConfigFailures.

Section ConfigMergeMore.

Import Config.

Lemma readGlobalConfig_value (w : World) :
  holds_record (global_config w) = true ->
  exists r, readGlobalConfig w = (Return r, after (EvReadFile (global_path w)) w) /\
            own_properties (default (Record ∅) r) = of_json <$> content (global_config w).
Proof.
  unfold readGlobalConfig, read_config_file, getGlobalConfigPath, readFile, bind, after,
    global_path; simpl.
  destruct (global_config w) as [|msg|[| |[c|items|b|m e|s]]]; try discriminate;
    intros _; simpl; eexists; (split; [reflexivity|]);
    simpl; try reflexivity; now rewrite fmap_empty.
Qed.

Lemma readConfig_value (w : World) :
  holds_record (local_config w) = true ->
  exists r, readConfig w = (Return r, after (EvReadFile (local_path w)) w) /\
            own_properties (default (Record ∅) r) = of_json <$> content (local_config w).
Proof.
  unfold readConfig, read_config_file, getLocalConfigPath, readFile, bind, after,
    local_path; simpl.
  destruct (local_config w) as [|msg|[| |[c|items|b|m e|s]]]; try discriminate;
    intros _; simpl; eexists; (split; [reflexivity|]);
    simpl; try reflexivity; now rewrite fmap_empty.
Qed.

(** The merged configuration of two files that hold records. *)
Lemma merged_records (w : World) :
  holds_record (local_config w) = true ->
  holds_record (global_config w) = true ->
  fst (getMergedConfig w) =
    Return ((of_json <$> content (local_config w)) ∪ (of_json <$> content (global_config w))).
Proof.
  intros Hl Hg.
  destruct (readGlobalConfig_value w Hg) as (g & Hgr & Hgv).
  destruct (readConfig_value (after (EvReadFile (global_path w)) w) Hl) as (l & Hlr & Hlv).
  unfold getMergedConfig, bind. rewrite Hgr, Hlr. simpl. now rewrite Hgv, Hlv.
Qed.

(** A missing config file (or one holding [null]) is an empty record, not an
    error: the merged configuration is then the record of the other file, and
    the empty record when both are missing. *)
Theorem getMergedConfig_missing_files (w : World) :
  (local_config w = Absent \/ local_config w = Text JsonNull ->
   forall g, global_config w = Text (Json (RecordJson g)) ->
     fst (getMergedConfig w) = Return (of_json <$> g)) /\
  (global_config w = Absent \/ global_config w = Text JsonNull ->
   forall l, local_config w = Text (Json (RecordJson l)) ->
     fst (getMergedConfig w) = Return (of_json <$> l)) /\
  (local_config w = Absent \/ local_config w = Text JsonNull ->
   global_config w = Absent \/ global_config w = Text JsonNull ->
   fst (getMergedConfig w) = Return ∅).
Proof.
  assert (Hempty : forall f, f = Absent \/ f = Text JsonNull ->
            holds_record f = true /\ of_json <$> content f = ∅).
  { intros f [-> | ->]; split; try reflexivity; apply fmap_empty. }
  repeat split.
  - intros Hl g Hg. destruct (Hempty _ Hl) as [Hrl Hel].
    rewrite merged_records by (try assumption; now rewrite Hg).
    rewrite Hel, Hg. cbn [content]. now rewrite (left_id_L ∅ (∪)).
  - intros Hg l Hl. destruct (Hempty _ Hg) as [Hrg Heg].
    rewrite merged_records by (try assumption; now rewrite Hl).
    rewrite Heg, Hl. cbn [content]. now rewrite (right_id_L ∅ (∪)).
  - intros Hl Hg. destruct (Hempty _ Hl) as [Hrl Hel]. destruct (Hempty _ Hg) as [Hrg Heg].
    rewrite merged_records by assumption.
    rewrite Hel, Heg. now rewrite (left_id_L ∅ (∪)).
Qed.

Lemma getMergedConfig_missing_files_witness :
  fst (getMergedConfig Scenario.fresh) = Return ∅.
Proof.
  exact (proj2 (proj2 (getMergedConfig_missing_files Scenario.fresh))
           (or_introl eq_refl) (or_introl eq_refl)).
Defined.

End ConfigMergeMore.

Section ConfigWriteThenMerge.

Import Config.

Lemma writeGlobalConfig_success (key : string) (value : jsval) (w w' : World) :
  holds_record (global_config w) = true ->
  writeGlobalConfig key value w = (Return tt, w') ->
  global_config w' =
    Text (Json (RecordJson (written key value (content (global_config w))))) /\
  local_config w' = local_config w.
Proof.
  intros Hrec H.
  destruct (writeGlobalConfig_cases key value w Hrec) as [(e & He)|[(e & He)|He]];
    rewrite He in H; try discriminate.
  injection H as <-. split; reflexivity.
Qed.

(** After a successful write, with both files holding records (or missing),
    what the merged configuration shows at the key: a local write always
    shows (as JSON holds the value), whatever the global record says; a
    global write shows only if the local record has no such key, otherwise
    the local value stays in front. *)
Theorem config_write_then_merged (key : string) (value : jsval) (w w' : World) :
  key <> "__proto__"%string ->
  holds_record (local_config w) = true ->
  holds_record (global_config w) = true ->
  (writeConfig key value w = (Return tt, w') ->
   exists merged, fst (getMergedConfig w') = Return merged /\
                  merged !! key = Some (json_roundtrip value)) /\
  (writeGlobalConfig key value w = (Return tt, w') ->
   exists merged, fst (getMergedConfig w') = Return merged /\
                  merged !! key =
                    match stored (local_config w) key with
                    | Some u => Some u
                    | None => Some (json_roundtrip value)
                    end).
Proof.
  intros Hne Hl Hg. split.
  - intros Hw.
    destruct (writeConfig_success key value w w' Hl Hw) as (Hl' & Hg' & _).
    eexists. split.
    + apply merged_records; [now rewrite Hl' | now rewrite Hg'].
    + rewrite Hl'. cbn [content]. apply lookup_union_Some_l. now apply written_key.
  - intros Hw.
    destruct (writeGlobalConfig_success key value w w' Hg Hw) as (Hg' & Hl').
    eexists. split.
    + apply merged_records; [now rewrite Hl' | now rewrite Hg'].
    + rewrite Hl', Hg'. cbn [content].
      rewrite lookup_union, (written_key key value _ Hne). unfold stored.
      rewrite lookup_fmap. now destruct (content (local_config w) !! key).
Qed.

Lemma config_write_then_merged_witness :
  exists merged,
    fst (getMergedConfig (snd (writeGlobalConfig "defaultType" (VStr "fatal") merge_world)))
      = Return merged /\
    merged !! "defaultType"%string = Some (VStr "anr").
Proof.
  exact (proj2 (config_write_then_merged "defaultType" (VStr "fatal") merge_world
                  (snd (writeGlobalConfig "defaultType" (VStr "fatal") merge_world))
                  ltac:(discriminate) eq_refl eq_refl)
           ltac:(vm_compute; reflexivity)).
Defined.

(** Why the global file is asked to hold a record too: with a garbled global
    file the local write succeeds and the merged configuration cannot be
    had. *)
Example config_write_then_merged_garbled_global :
  let w := Scenario.machine Scenario.logged_in Absent Absent (Text Malformed)
             1700000000000 Scenario.offline None (Some 0) in
  fst (writeConfig "defaultType" (VStr "anr") w) = Return tt /\
  fst (getMergedConfig (snd (writeConfig "defaultType" (VStr "anr") w))) =
    Throw (Error (config_parse_message "global" "/home/dev/.config/fcc/config.json")).
Proof. vm_compute. split; reflexivity. Qed.

End ConfigWriteThenMerge.

(** ** More on project and app resolution *)

Section ResolutionMore.

Import Auth Config Project.

Variable NumberToString : jsnum -> string.

Ltac crunch := cbv beta iota delta [ret given fmap option_fmap option_map].

(** A [.firebaserc] that does not parse (or holds [null]) stops the
    resolution of the project, even when the local config names one; with an
    explicit project the file is not read and does no harm. *)
Theorem resolveProject_garbled_firebaserc (w : World) :
  firebaserc w = Text Malformed \/ firebaserc w = Text JsonNull ->
  resolveProject NumberToString None w =
    (Throw (Error firebaserc_parse_message), after (EvReadFile (rc_path w)) w) /\
  forall f, truthy_str f = true ->
    resolveProject NumberToString (Some f) w = exchange f w.
Proof.
  intros H. split.
  - unfold resolveProject, bind. crunch.
    rewrite readFirebaseRc_run. destruct H as [-> | ->]; reflexivity.
  - intros f Hf. unfold resolveProject, bind. simpl. now rewrite Hf.
Qed.

(** What the local file stores at a known key after a successful write of a
    string to a file that held a record. *)
Lemma stored_after_write (key id : string) (w w' : World) :
  key <> "__proto__"%string ->
  holds_record (local_config w) = true ->
  writeConfig key (VStr id) w = (Return tt, w') ->
  stored (local_config w') key = Some (VStr id) /\ readable (local_config w') = true /\
  firebaserc w' = firebaserc w.
Proof.
  intros Hne Hrec Hw.
  destruct (writeConfig_success _ _ _ _ Hrec Hw) as (Hl & _ & _ & _ & _ & _ & Hrc).
  rewrite Hl. repeat split; try assumption.
  unfold stored. cbn [content]. rewrite <- lookup_fmap.
  rewrite written_key by assumption. reflexivity.
Qed.

(** [fcc set project <id>], on a local file that holds a record (or is
    missing), followed by a resolution without flag: the id that was set is
    the one exchanged when there is no [.firebaserc]; when [.firebaserc]
    names a default project, that one is exchanged and the id that was set is
    not used. *)
Theorem set_project_then_resolveProject (id : string) (w w' : World) :
  holds_record (local_config w) = true ->
  writeConfig "project" (VStr id) w = (Return tt, w') ->
  truthy_str id = true ->
  (firebaserc w = Absent ->
   resolveProject NumberToString None w' =
     exchange id (after (EvReadFile (local_path w')) (after (EvReadFile (rc_path w')) w'))) /\
  (forall b, firebaserc w = Text (Json {| projects := Some {| rc_default := Some b |} |}) ->
     truthy_str b = true ->
     resolveProject NumberToString None w' =
       exchange b (after (EvReadFile (rc_path w')) w')).
Proof.
  intros Hrec Hw Hid.
  destruct (stored_after_write "project" id w w' ltac:(discriminate) Hrec Hw)
    as (Hst & Hread & Hrc).
  split.
  - intros Habs.
    rewrite (resolveProject_run NumberToString None w').
    + unfold preferred_project, consulted. crunch. rewrite Hrc, Habs. cbn [rc_default_project].
      crunch. rewrite Hst. crunch.
      change (truthy (VStr id)) with (truthy_str id). rewrite Hid. reflexivity.
    + intros _. now rewrite Hrc, Habs.
    + intros _ _. exact Hread.
  - intros b Hb Htb.
    rewrite (resolveProject_run NumberToString None w').
    + unfold preferred_project, consulted. crunch. rewrite Hrc, Hb.
      cbn [rc_default_project projects rc_default]. crunch.
      change (truthy (VStr b)) with (truthy_str b). rewrite Htb. reflexivity.
    + intros _. now rewrite Hrc, Hb.
    + intros _ Hnone. exfalso. rewrite Hrc, Hb in Hnone.
      cbn [rc_default_project projects rc_default] in Hnone.
      revert Hnone. crunch. change (truthy (VStr b)) with (truthy_str b).
      now rewrite Htb.
Qed.

(** [fcc set app <id>], on a local file that holds a record (or is missing),
    followed by a resolution without flag returns the id that was set, after
    one read of the local file and without any request. *)
Theorem set_app_then_resolveApp (id : string) (projectNumber : option string)
    (schedule : list bool) (w w' : World) :
  holds_record (local_config w) = true ->
  writeConfig "app" (VStr id) w = (Return tt, w') ->
  truthy_str id = true ->
  resolveApp NumberToString None projectNumber schedule w' =
    (Return (VStr id), after (EvReadFile (local_path w')) w') /\
  fetches (after (EvReadFile (local_path w')) w') = fetches w'.
Proof.
  intros Hrec Hw Hid.
  destruct (stored_after_write "app" id w w' ltac:(discriminate) Hrec Hw)
    as (Hst & Hread & _).
  split; [|apply fetches_after_read].
  rewrite (resolveApp_run NumberToString None projectNumber schedule w' eq_refl Hread).
  rewrite Hst. crunch. change (truthy (VStr id)) with (truthy_str id). now rewrite Hid.
Qed.

End ResolutionMore.

Lemma resolveProject_garbled_firebaserc_witness :
  fst (Project.resolveProject no_numbers None garbled_rc_world)
    = Throw (Error firebaserc_parse_message).
Proof.
  now rewrite (proj1 (resolveProject_garbled_firebaserc no_numbers garbled_rc_world
                        (or_introl eq_refl))).
Defined.

Lemma set_project_then_resolveProject_witness :
  fst (Project.resolveProject no_numbers None
         (snd (Config.writeConfig "project" (VStr "proj-C") (resolution_world rc_B Absent))))
    = Return (identity_of (project_payload "proj-B" "1002")).
Proof.
  rewrite (proj2 (set_project_then_resolveProject no_numbers "proj-C"
                    (resolution_world rc_B Absent)
                    (snd (Config.writeConfig "project" (VStr "proj-C")
                            (resolution_world rc_B Absent)))
                    eq_refl ltac:(vm_compute; reflexivity) eq_refl)
             "proj-B"%string eq_refl eq_refl).
  vm_compute. reflexivity.
Defined.

Lemma set_app_then_resolveApp_witness :
  fst (Project.resolveApp no_numbers None None []
         (snd (Config.writeConfig "app" (VStr "1:1003:ios:ccc") (resolution_world Absent Absent))))
    = Return (VStr "1:1003:ios:ccc").
Proof.
  now rewrite (proj1 (set_app_then_resolveApp no_numbers "1:1003:ios:ccc" None []
                        (resolution_world Absent Absent)
                        (snd (Config.writeConfig "app" (VStr "1:1003:ios:ccc")
                                (resolution_world Absent Absent)))
                        eq_refl ltac:(vm_compute; reflexivity) eq_refl)).
Defined.

Section ListingMore.

Import Auth Config Project.

Variable NumberToString : jsnum -> string.

Lemma platform_fmap (f : AppJson -> FirebaseApp) (p : Platform) (l : list AppJson) :
  (forall a, platform (f a) = p) ->
  platform <$> (f <$> l) = replicate (length l) p.
Proof.
  intros H. induction l as [|a l IH]; [reflexivity|].
  cbn. rewrite H. f_equal. exact IH.
Qed.

(** With a token to be had and both listings of the project served,
    [listApps] returns, whatever the order in which the requests it starts
    together complete, the Android apps followed by the iOS apps, each in the
    order of its listing; a listing without an [apps] field counts as empty. *)
Theorem listApps_android_then_ios
    (projectNumber : string) (schedule : list bool) (w : World)
    (androidResponse iosResponse : Payload) :
  grants w ->
  serves w (android_path projectNumber) androidResponse ->
  serves w (ios_path projectNumber) iosResponse ->
  exists apps,
    fst (listApps projectNumber schedule w) = Return apps /\
    appId <$> apps = listed_ids androidResponse ++ listed_ids iosResponse /\
    platform <$> apps =
      replicate (length (listed_ids androidResponse)) ANDROID ++
      replicate (length (listed_ids iosResponse)) IOS.
Proof.
  intros Hg Ha Hi. exists (listed_apps androidResponse iosResponse).
  split; [now apply listApps_served|]. split; [apply appId_listed_apps|].
  unfold listed_apps, listed_ids. cbv zeta.
  rewrite fmap_app, !length_fmap.
  f_equal; now apply platform_fmap.
Qed.

(** Without an explicit or configured app, with a token to be had and both
    listings served, [resolveApp] picks under every schedule the first
    Android app whenever the project has one; the first iOS app only when
    there is no Android app; and it fails when both listings are empty. *)
Theorem resolveApp_prefers_android
    (pn : string) (schedule : list bool) (w : World)
    (androidResponse iosResponse : Payload) :
  truthy_str pn = true ->
  readable (local_config w) = true ->
  given (stored (local_config w) "app") = None ->
  grants w ->
  serves w (android_path pn) androidResponse ->
  serves w (ios_path pn) iosResponse ->
  let result := fst (resolveApp NumberToString None (Some pn) schedule w) in
  (forall first rest, listed_ids androidResponse = first :: rest ->
     result = Return (VStr first)) /\
  (listed_ids androidResponse = [] ->
   forall first rest, listed_ids iosResponse = first :: rest ->
     result = Return (VStr first)) /\
  (listed_ids androidResponse = [] -> listed_ids iosResponse = [] ->
   result = Throw (Error (no_apps_message pn))).
Proof.
  intros Hpn Hlc Hcfg Hg Ha Hi result.
  assert (Hr : result =
               match listed_ids androidResponse ++ listed_ids iosResponse with
               | first :: _ => Return (VStr first)
               | [] => Throw (Error (no_apps_message pn))
               end).
  { subst result.
    rewrite (resolveApp_run NumberToString None (Some pn) schedule w eq_refl Hlc).
    rewrite Hcfg.
    change (given (VStr <$> Some pn))
      with (if truthy_str pn then Some (VStr pn) else None).
    rewrite Hpn. change (ToString NumberToString (VStr pn)) with pn.
    pose proof (listApps_served pn schedule (after (EvReadFile (local_path w)) w)
                  androidResponse iosResponse
                  (grants_after _ w Hg) (serves_after _ w _ _ Ha)
                  (serves_after _ w _ _ Hi)) as Hl.
    rewrite <- appId_listed_apps.
    destruct (listApps pn schedule _) as [r w2]. cbn [fst] in Hl. subst r.
    now destruct (listed_apps androidResponse iosResponse). }
  rewrite Hr. repeat split.
  - now intros first rest ->.
  - now intros -> first rest ->.
  - now intros -> ->.
Qed.

End ListingMore.

Lemma resolveApp_prefers_android_witness :
  fst (Project.resolveApp no_numbers None (Some "1003"%string) [true; false; false; true]
         (resolution_world Absent Absent))
    = Return (VStr "1:1003:android:aaa").
Proof.
  exact (proj1 (resolveApp_prefers_android no_numbers "1003" [true; false; false; true]
                  (resolution_world Absent Absent) _ _ eq_refl eq_refl eq_refl
                  (scenario_grants Absent Absent)
                  (scenario_serves_android Absent Absent)
                  (scenario_serves_ios Absent Absent))
           "1:1003:android:aaa"%string [] eq_refl).
Defined.

Lemma listApps_android_then_ios_witness :
  exists apps,
    fst (Project.listApps "1003" [false; true] (resolution_world Absent Absent)) = Return apps /\
    Project.appId <$> apps = ["1:1003:android:aaa"%string].
Proof.
  destruct (listApps_android_then_ios "1003" [false; true] (resolution_world Absent Absent)
              _ _ (scenario_grants Absent Absent)
              (scenario_serves_android Absent Absent)
              (scenario_serves_ios Absent Absent))
    as (apps & Hl & Hids & _).
  exists apps. split; [exact Hl | exact Hids].
Defined.

(** On a cold cache each of the two listings fetches its own token: four
    requests are sent where a warm cache needs two; and the iOS listing is
    requested even when the Android listing fails. *)
Example listApps_requests :
  length (fetches (snd (Project.listApps "1003" [] (resolution_world Absent Absent)))) = 4%nat /\
  length (fetches (snd (Project.listApps "1003" []
                          (snd (Auth.getAccessToken (resolution_world Absent Absent)))))) = 3%nat /\
  (exists e, fst (Project.listApps "1234567890" [] after_login) = Throw e) /\
  length (fetches (snd (Project.listApps "1234567890" [] after_login))) =
    (length (fetches after_login) + 2)%nat.
Proof. vm_compute. repeat split. eexists. reflexivity. Qed.

(** ** More on the request layers *)

Section RequestLayerMore.

Import Auth Crashlytics Client.

(** How a request of the client goes, given how getting the token went. *)
Lemma request_run (this : CrashlyticsClient) (method path : string)
    (options : option RequestOptions) (w w1 : World) (r0 : outcome string) :
  getAccessToken w = (r0, w1) ->
  request this method path options w =
    match r0 with
    | Throw e => (Throw e, w1)
    | Return accessToken =>
        let req := client_request method path options accessToken in
        (match next_reply w1 req with
         | NetworkFailure msg =>
             Throw (Error ("Network error while calling Crashlytics API: " +:+ msg))
         | Respond response =>
             if negb (ok response) then
               Throw (CrashlyticsApiError
                        (if status response =? 401 then
                           "Authentication failed. Your access token is invalid or expired. Try running `firebase login` again."
                         else if status response =? 403 then
                           "Access denied. You do not have permission to access this resource. Check that your account has the required Firebase Crashlytics permissions."
                         else if status response =? 404 then not_found_message this
                         else if status response =? 429 then
                           "Rate limit exceeded. Too many requests to the Crashlytics API. Please wait a moment and try again."
                         else "Crashlytics API error (" +:+ pretty (status response) +:+ "): "
                              +:+ text response)
                        (status response) (statusText response))
             else if status response =? 204 then Return None
             else match body response with
                  | Malformed =>
                      Throw (Error "Failed to parse JSON response from the Crashlytics API.")
                  | JsonNull => Return None
                  | Json data => Return (Some data)
                  end
         end, after (EvFetch req) w1)
    end.
Proof.
  intros Hg. unfold request, bind. rewrite Hg.
  destruct r0 as [accessToken|e]; [|reflexivity].
  unfold fetch. fold (client_request method path options accessToken).
  fold (next_reply w1 (client_request method path options accessToken)).
  change (io (EvFetch (client_request method path options accessToken)) w1)
    with (Return tt, after (EvFetch (client_request method path options accessToken)) w1).
  cbv zeta beta iota.
  destruct (next_reply w1 (client_request method path options accessToken))
    as [msg|response]; [reflexivity|].
  destruct (ok response); simpl.
  - destruct (status response =? 204); [reflexivity|].
    now destruct (body response).
  - destruct (status response =? 401) eqn:H1.
    { apply Z.eqb_eq in H1. now rewrite H1. }
    destruct (status response =? 403) eqn:H3.
    { apply Z.eqb_eq in H3. now rewrite H3. }
    destruct (status response =? 404) eqn:H4.
    { apply Z.eqb_eq in H4. now rewrite H4. }
    destruct (status response =? 429) eqn:H9.
    { apply Z.eqb_eq in H9. now rewrite H9. }
    reflexivity.
Qed.

(** Every reply of the Crashlytics API that is not 2xx becomes a
    [CrashlyticsApiError] that carries the status code and status text of the
    reply, whatever the method, the path and the options. *)
Theorem request_error_keeps_status (this : CrashlyticsClient) (method path : string)
    (options : option RequestOptions) (w w1 : World) (accessToken : string)
    (response : Response) :
  getAccessToken w = (Return accessToken, w1) ->
  next_reply w1 (client_request method path options accessToken) = Respond response ->
  ok response = false ->
  exists e, fst (request this method path options w) = Throw e /\
            name e = "CrashlyticsApiError"%string /\
            statusCode e = Some (status response) /\
            errStatusText e = Some (statusText response).
Proof.
  intros Hg Hr Hok.
  rewrite (request_run this method path options w w1 _ Hg). cbv zeta.
  rewrite Hr, Hok. simpl. eexists. repeat split.
Qed.

(** The client sends one request per call and never retries: when no token
    can be had nothing is sent to the API and the token's error is the
    result; otherwise exactly one request goes out, with the token as bearer. *)
Theorem request_sends_once (this : CrashlyticsClient) (method path : string)
    (options : option RequestOptions) (w w1 : World) (r0 : outcome string) :
  getAccessToken w = (r0, w1) ->
  match r0 with
  | Throw e => request this method path options w = (Throw e, w1)
  | Return accessToken =>
      fetches (snd (request this method path options w)) =
        fetches w1 ++ [EvFetch (client_request method path options accessToken)] /\
      r_authorization (client_request method path options accessToken) =
        Some ("Bearer " +:+ accessToken)%string
  end.
Proof.
  intros Hg. rewrite (request_run this method path options w w1 _ Hg).
  destruct r0 as [accessToken|e]; [|reflexivity].
  cbv zeta. simpl snd. split; [apply fetches_after_fetch | reflexivity].
Qed.

(** A 204 reply is a success with an empty result; its body is not parsed.
    This is how [deleteNote] succeeds. *)
Theorem deleteNote_204 (this : CrashlyticsClient) (issueId noteId accessToken : string)
    (w w1 : World) (response : Response) :
  getAccessToken w = (Return accessToken, w1) ->
  next_reply w1
    (client_request "DELETE"
       (resourcePath this +:+ "/issues/" +:+ issueId +:+ "/notes/" +:+ noteId)%string
       None accessToken) = Respond response ->
  status response = 204 ->
  fst (deleteNote this issueId noteId w) = Return None.
Proof.
  intros Hg Hr Hs. unfold deleteNote.
  rewrite (request_run this _ _ None w w1 _ Hg). cbv zeta.
  rewrite Hr. unfold ok. rewrite Hs. reflexivity.
Qed.

End RequestLayerMore.

Section RequestLayerWitnesses.

Import Auth Crashlytics Client.

Lemma request_error_keeps_status_witness :
  exists e, fst (listNotes Scenario.client "abc" notes_world) = Throw e /\
            statusCode e = Some 429 /\ errStatusText e = Some "Too Many Requests"%string.
Proof.
  destruct (request_error_keeps_status Scenario.client "GET"
              (resourcePath Scenario.client +:+ "/issues/abc/notes") None
              notes_world (snd (getAccessToken notes_world)) "ya29.fresh"
              {| status := 429; statusText := "Too Many Requests"; text := "slow down";
                 body := Malformed |}
              ltac:(vm_compute; reflexivity) ltac:(vm_compute; reflexivity) eq_refl)
    as (e & He & _ & Hc & Ht).
  exists e. repeat split; assumption.
Defined.

Lemma request_sends_once_witness :
  fetches (snd (listNotes Scenario.client "abc" notes_world)) =
    fetches (snd (getAccessToken notes_world)) ++
    [EvFetch (client_request "GET" (resourcePath Scenario.client +:+ "/issues/abc/notes")
                None "ya29.fresh")].
Proof.
  exact (proj1 (request_sends_once Scenario.client "GET"
                  (resourcePath Scenario.client +:+ "/issues/abc/notes") None
                  notes_world (snd (getAccessToken notes_world)) (Return "ya29.fresh"%string)
                  ltac:(vm_compute; reflexivity))).
Defined.

Lemma deleteNote_204_witness :
  fst (deleteNote Scenario.client "abc" "n1" notes_world) = Return None.
Proof.
  refine (deleteNote_204 Scenario.client "abc" "n1" "ya29.fresh" notes_world
            (snd (getAccessToken notes_world))
            {| status := 204; statusText := "No Content"; text := ""; body := Malformed |}
            _ _ _).
  - vm_compute. reflexivity.
  - vm_compute. reflexivity.
  - reflexivity.
Defined.

Lemma contains_self (s : string) : contains s s = true.
Proof.
  apply contains_prefix. induction s as [|c s IH]; simpl; [reflexivity|].
  destruct (ascii_dec c c); [exact IH | congruence].
Qed.

(** A reply of the Firebase Management API that is not 2xx becomes a plain
    [Error] without status code; for a 404 the message carries the body of
    the reply, and for a status other than 401, 403 and 404 it carries the
    status and the body. *)
Theorem firebaseApiGet_error (path accessToken : string) (w w1 : World)
    (response : Response) :
  getAccessToken w = (Return accessToken, w1) ->
  next_reply w1 (management_request path accessToken) = Respond response ->
  ok response = false ->
  exists e,
    Project.firebaseApiGet path w =
      (Throw e, after (EvFetch (management_request path accessToken)) w1) /\
    name e = "Error"%string /\ statusCode e = None /\
    (status response = 404 -> contains (message e) (text response) = true) /\
    (status response <> 401 -> status response <> 403 -> status response <> 404 ->
     contains (message e) (pretty (status response)) = true /\
     contains (message e) (text response) = true).
Proof.
  intros Hg Hr Hok. unfold Project.firebaseApiGet, bind. rewrite Hg.
  unfold fetch. fold (management_request path accessToken).
  fold (next_reply w1 (management_request path accessToken)). rewrite Hr.
  change (io (EvFetch (management_request path accessToken)) w1)
    with (Return tt, after (EvFetch (management_request path accessToken)) w1).
  cbv beta iota zeta. rewrite Hok. simpl negb. cbv iota.
  destruct (status response =? 401) eqn:H1.
  { apply Z.eqb_eq in H1. eexists. repeat split; try reflexivity; intros; lia. }
  destruct (status response =? 403) eqn:H3.
  { apply Z.eqb_eq in H3. eexists. repeat split; try reflexivity; intros; lia. }
  destruct (status response =? 404) eqn:H4.
  { apply Z.eqb_eq in H4. eexists. repeat split; try reflexivity; try (intros; lia).
    intros _. simpl message. apply contains_app_l, contains_self. }
  eexists. repeat split; try reflexivity.
  - intros H. apply Z.eqb_neq in H4. contradiction.
  - simpl message. apply contains_app.
  - simpl message. do 3 apply contains_app_l. apply contains_self.
Qed.

Lemma firebaseApiGet_error_witness :
  exists e, fst (Project.firebaseApiGet "projects/unknown" (resolution_world Absent Absent))
              = Throw e /\ statusCode e = None.
Proof.
  destruct (firebaseApiGet_error "projects/unknown" "ya29.fresh"
              (resolution_world Absent Absent)
              (snd (getAccessToken (resolution_world Absent Absent)))
              {| status := 404; statusText := ""; text := ""; body := Malformed |}
              ltac:(vm_compute; reflexivity) ltac:(vm_compute; reflexivity) eq_refl)
    as (e & He & _ & Hc & _).
  exists e. split; [now rewrite He | exact Hc].
Defined.

End RequestLayerWitnesses.

Section VersionNames.

Import Client.

Lemma first_match_none (groups : list ReportGroup) (input : string) :
  Forall (fun g => forall v, version g = Some v -> mentions v input = false) groups ->
  first_match groups input = input.
Proof.
  induction 1 as [|g rest Hg _ IH]; [reflexivity|]. simpl.
  destruct (version g) as [v|]; [|exact IH].
  now rewrite (Hg v eq_refl).
Qed.

(** A version that already looks like a full display name (it contains a
    parenthesis) is passed on as it is, and so is one that no group of the
    report mentions; the list that comes back has one entry per input. *)
Theorem resolveVersionDisplayName_unchanged (groups : list ReportGroup) (input : string) :
  contains input "(" = true \/
  Forall (fun g => forall v, version g = Some v -> mentions v input = false) groups ->
  resolveVersionDisplayName groups input = input /\
  forall versions, length (resolveVersionDisplayNames_of groups versions) = length versions.
Proof.
  intros H. split.
  - unfold resolveVersionDisplayName.
    destruct (contains input "(") eqn:Hp; [reflexivity|].
    destruct H as [H|H]; [discriminate|]. now apply first_match_none.
  - intros versions. unfold resolveVersionDisplayNames_of. apply length_fmap.
Qed.

Lemma resolveVersionDisplayName_unchanged_witness :
  resolveVersionDisplayName sample_groups "3.4.0 (30401)" = "3.4.0 (30401)"%string.
Proof.
  refine (proj1 (resolveVersionDisplayName_unchanged sample_groups "3.4.0 (30401)" _)).
  left. vm_compute. reflexivity.
Defined.

(** Otherwise the first group of the report whose version mentions the input
    (as display version, build version or display name) decides: the result
    is that group's display name, or the input if the group has none. *)
Theorem resolveVersionDisplayName_first_match
    (before after : list ReportGroup) (group : ReportGroup) (v : VersionInfo)
    (input : string) :
  contains input "(" = false ->
  Forall (fun g => forall v', version g = Some v' -> mentions v' input = false) before ->
  version group = Some v ->
  mentions v input = true ->
  resolveVersionDisplayName (before ++ group :: after) input =
    default input (v_displayName v).
Proof.
  intros Hp Hbefore Hv Hm. unfold resolveVersionDisplayName. rewrite Hp.
  induction Hbefore as [|g rest Hg _ IH]; simpl.
  - now rewrite Hv, Hm.
  - destruct (version g) as [v'|]; [|exact IH].
    now rewrite (Hg v' eq_refl).
Qed.

Lemma resolveVersionDisplayName_first_match_witness :
  resolveVersionDisplayName sample_groups "3.4.0" = "3.4.0 (30400)"%string.
Proof.
  refine (resolveVersionDisplayName_first_match
            [ {| version := None |} ]
            [ {| version := Some {| displayVersion := Some "3.4.0"%string;
                                    buildVersion := Some "30401"%string;
                                    v_displayName := Some "3.4.0 (30401)"%string |} |} ]
            {| version := Some {| displayVersion := Some "3.4.0"%string;
                                  buildVersion := Some "30400"%string;
                                  v_displayName := Some "3.4.0 (30400)"%string |} |}
            {| displayVersion := Some "3.4.0"%string;
               buildVersion := Some "30400"%string;
               v_displayName := Some "3.4.0 (30400)"%string |}
            "3.4.0" _ _ _ _).
  - vm_compute. reflexivity.
  - constructor; [|constructor]. intros v' H. discriminate.
  - reflexivity.
  - vm_compute. reflexivity.
Defined.

End VersionNames.

(** ** The commands *)

Section CommandHelpers.

Import Config Commands.

Lemma contains_slash_cons (c : ascii) (s : string) :
  contains (String c s) "/" = false -> c <> "/"%char /\ contains s "/" = false.
Proof.
  cbn [contains]. intros H. apply orb_false_iff in H as [Hp Hs].
  split; [|exact Hs]. intros ->. simpl in Hp. now destruct s.
Qed.

Lemma split_slash_nonempty (s : string) : split_slash s <> [].
Proof.
  destruct s as [|c s]; simpl; [discriminate|].
  case_bool_decide; [discriminate|]. now destruct (split_slash s).
Qed.

Lemma split_slash_no_slash (s : string) :
  contains s "/" = false -> split_slash s = [s].
Proof.
  induction s as [|c s IH]; intros H; [reflexivity|].
  apply contains_slash_cons in H as [Hc Hs]. simpl.
  rewrite bool_decide_eq_false_2 by assumption. now rewrite (IH Hs).
Qed.

Lemma split_slash_last (p id : string) :
  last (split_slash (p +:+ String "/" id)) = last (split_slash id) /\
  (2 <= length (split_slash (p +:+ String "/" id)))%nat.
Proof.
  pose proof (split_slash_nonempty id) as Hne.
  induction p as [|c p [IHl IHn]].
  - change ("" +:+ String "/" id) with (String "/" id). simpl.
    destruct (split_slash id) as [|h t]; [contradiction|]. simpl. split; [reflexivity | lia].
  - change (String c p +:+ String "/" id) with (String c (p +:+ String "/" id)).
    cbn [split_slash].
    destruct (split_slash (p +:+ String "/" id)) as [|h [|h' t]]; simpl in IHn; try lia.
    case_bool_decide; split; try exact IHl; simpl; lia.
Qed.

(** [extractEventId] undoes the way a resource name is built: the id put
    after the last slash comes back, and a name without slash is its own id. *)
Theorem extractEventId_resource_name (parent id : string) :
  contains id "/" = false ->
  extractEventId (parent +:+ "/" +:+ id) = id /\ extractEventId id = id.
Proof.
  intros H. unfold extractEventId. split.
  - change (parent +:+ "/" +:+ id) with (parent +:+ String "/" id).
    rewrite (proj1 (split_slash_last parent id)).
    now rewrite (split_slash_no_slash id H).
  - now rewrite (split_slash_no_slash id H).
Qed.

Lemma extractEventId_resource_name_witness :
  extractEventId "projects/123/apps/456/events/evt_abc123" = "evt_abc123"%string.
Proof.
  exact (proj1 (extractEventId_resource_name "projects/123/apps/456/events" "evt_abc123"
                  eq_refl)).
Defined.

(** The [--type] flag of the issues commands and of the reports commands:
    every value the issues commands accept the reports commands accept with
    the same meaning, in any letter case; the reports commands accept
    [non_fatal] and [non-fatal] besides, which the issues commands reject. *)
Theorem error_type_flags (type : string) (r : IssueErrorType) :
  (mapErrorType type = Return r -> parseErrorType type = Return r) /\
  (parseErrorType type = Return r ->
   mapErrorType type = Return r \/
   (r = NON_FATAL /\
    (toLowerCase type = "non_fatal"%string \/ toLowerCase type = "non-fatal"%string) /\
    exists e, mapErrorType type = Throw e)).
Proof.
  unfold mapErrorType, parseErrorType.
  repeat case_bool_decide; simpl; split; intros Hr; try discriminate; try (now left);
    try exact Hr; try congruence.
  all: injection Hr as <-; right; repeat split; eauto.
Qed.

Lemma error_type_flags_witness :
  parseErrorType "NonFatal" = Return NON_FATAL.
Proof.
  apply (proj1 (error_type_flags "NonFatal" NON_FATAL)). vm_compute. reflexivity.
Defined.

(** [limitGroups] never reorders or invents groups: what it returns is a
    prefix of the groups it was given, all of them without [--limit], and
    otherwise as many as the integer the limit starts with, if there are that
    many; a limit that starts with no integer, or with one that is not
    positive, is an error that quotes the limit. *)
Theorem limitGroups_prefix {A} (groups : list A) (limit : option string) :
  (forall r, limitGroups groups limit = Return r ->
     r `prefix_of` groups /\
     (limit = None \/ limit = Some ""%string -> r = groups) /\
     (forall l, limit = Some l -> truthy_str l = true ->
        exists n, parseInt10 l = Some n /\ 0 < n /\
                  length r = Nat.min (Z.to_nat n) (length groups))) /\
  (forall l, limit = Some l -> truthy_str l = true ->
     (parseInt10 l = None \/ exists n, parseInt10 l = Some n /\ n <= 0) ->
     exists e, limitGroups groups limit = Throw e /\ contains (message e) l = true).
Proof.
  split.
  - intros r H. unfold limitGroups in H.
    destruct limit as [l|]; [|injection H as <-].
    2:{ repeat split; [reflexivity | discriminate]. }
    destruct (truthy_str l) eqn:Ht; simpl in H.
    + destruct (parseInt10 l) as [n|] eqn:Hn; [|discriminate].
      destruct (n <=? 0) eqn:Hle; [discriminate|]. injection H as <-.
      apply Z.leb_gt in Hle. repeat split.
      * apply prefix_take.
      * intros [Hl|Hl]; [discriminate|]. injection Hl as ->. discriminate.
      * intros l' [= <-] _. exists n. split; [exact Hn|]. split; [lia|]. apply length_take.
    + injection H as <-. repeat split; [reflexivity|].
      intros l' [= <-] Ht'. congruence.
  - intros l -> Ht Hbad. unfold limitGroups. rewrite Ht. simpl.
    assert (Hc : contains ("Invalid limit: " +:+ dq +:+ l +:+ dq +:+
                           ". Must be a positive integer.") l = true).
    { do 2 apply contains_app_l. apply contains_prefix, prefix_app. }
    destruct Hbad as [-> | (n & -> & Hn)].
    + eexists. split; [reflexivity | exact Hc].
    + rewrite (proj2 (Z.leb_le n 0) Hn). eexists. split; [reflexivity | exact Hc].
Qed.

Lemma limitGroups_prefix_witness :
  exists r, limitGroups [10; 20; 30; 40]%nat (Some "2 groups"%string) = Return r /\
            length r = 2%nat.
Proof.
  destruct (proj1 (limitGroups_prefix [10; 20; 30; 40]%nat (Some "2 groups"%string))
              [10; 20]%nat ltac:(vm_compute; reflexivity)) as (_ & _ & H).
  destruct (H "2 groups"%string eq_refl eq_refl) as (n & Hn & _ & Hl).
  exists [10; 20]%nat. split; [vm_compute; reflexivity | reflexivity].
Defined.

End CommandHelpers.
